(** * MetamaskInpageProvider: state reconciliation, lifecycle and request dispatch

    A shallow embedding of [src/index.js] (the provider) and of the helpers
    of [utils.js] that are appended to it ([createErrorMiddleware],
    [logStreamDisconnectWarning]).  JavaScript values are a small inductive
    type, the provider object together with the module-level [_state] is one
    record, and every observable effect (events emitted, console output,
    requests handed to the RPC engine) is a log inside that record.  The
    config store, on which the subscribe handler runs, is a record of its
    own. *)

From Stdlib Require Import List String ZArith Bool Lia.
Import ListNotations.
Open Scope string_scope.
Open Scope list_scope.
Set Warnings "-register-all".

(** ** JavaScript values *)

Module JS.

(** Primitive values.  Numbers are integers: the code under study only
    compares them and tests their truthiness. *)
Inductive prim : Type :=
| PUndef
| PNull
| PBool (b : bool)
| PNum (n : Z)
| PStr (s : string).

(** Arrays and plain objects; an object is its list of own properties. *)
Inductive value : Type :=
| VPrim (p : prim)
| VArr (l : list value)
| VObj (o : list (string * value)).

Definition undefined : value := VPrim PUndef.
Definition null : value := VPrim PNull.
Definition str (s : string) : value := VPrim (PStr s).
Definition num (n : Z) : value := VPrim (PNum n).

(** [a === b] on primitives. *)
Definition prim_eqb (a b : prim) : bool :=
  match a, b with
  | PUndef, PUndef => true
  | PNull, PNull => true
  | PBool x, PBool y => Bool.eqb x y
  | PNum x, PNum y => Z.eqb x y
  | PStr x, PStr y => String.eqb x y
  | _, _ => false
  end.

(** [a === b] on values.  Arrays and objects are compared by reference in
    JavaScript; the embedding carries no references, and every array or
    object value stands for a reference of its own. *)
Definition strict_eq (a b : value) : bool :=
  match a, b with
  | VPrim p, VPrim q => prim_eqb p q
  | _, _ => false
  end.

Definition truthy_prim (p : prim) : bool :=
  match p with
  | PUndef | PNull => false
  | PBool b => b
  | PNum n => negb (Z.eqb n 0)
  | PStr s => negb (String.eqb s "")
  end.

Definition truthy (v : value) : bool :=
  match v with
  | VPrim p => truthy_prim p
  | _ => true
  end.

(** [a || b] *)
Definition or_else (a b : value) : value := if truthy a then a else b.

Definition isArray (v : value) : bool :=
  match v with VArr _ => true | _ => false end.

(** [typeof v === 'object'] (true of [null], as in JavaScript). *)
Definition typeof_object (v : value) : bool :=
  match v with
  | VPrim PNull => true
  | VPrim _ => false
  | _ => true
  end.

Definition typeof_string (v : value) : bool :=
  match v with VPrim (PStr _) => true | _ => false end.

Fixpoint lookup (k : string) (o : list (string * value)) : option value :=
  match o with
  | [] => None
  | (k', v) :: o' => if String.eqb k k' then Some v else lookup k o'
  end.

(** [v.k]: [None] is the TypeError raised on [null] and [undefined]; a
    property that is absent reads as [undefined]. *)
Definition get (v : value) (k : string) : option value :=
  match v with
  | VPrim PUndef | VPrim PNull => None
  | VObj o => Some (match lookup k o with Some x => x | None => undefined end)
  | _ => Some undefined
  end.

Fixpoint set_field (k : string) (x : value) (o : list (string * value))
  : list (string * value) :=
  match o with
  | [] => [(k, x)]
  | (k', v) :: o' =>
      if String.eqb k k' then (k, x) :: o' else (k', v) :: set_field k x o'
  end.

(** [a[0]] *)
Definition first (l : list value) : value :=
  match l with [] => undefined | x :: _ => x end.

(** [fast-deep-equal]: primitives by [===]; arrays by length and
    element-wise, in order; objects by number of keys and key-wise. *)
Fixpoint dequal (a b : value) {struct a} : bool :=
  match a, b with
  | VPrim p, VPrim q => prim_eqb p q
  | VArr l, VArr m =>
      (fix go (l m : list value) {struct l} : bool :=
         match l, m with
         | [], [] => true
         | x :: l', y :: m' => dequal x y && go l' m'
         | _, _ => false
         end) l m
  | VObj o, VObj p =>
      Nat.eqb (List.length o) (List.length p) &&
      (fix keys (o : list (string * value)) {struct o} : bool :=
         match o with
         | [] => true
         | (k, v) :: o' =>
             match lookup k p with
             | Some w => dequal v w && keys o'
             | None => false
             end
         end) o
  | _, _ => false
  end.

(** The array case of [dequal], named. *)
Fixpoint dequal_list (l m : list value) : bool :=
  match l, m with
  | [], [] => true
  | x :: l', y :: m' => dequal x y && dequal_list l' m'
  | _, _ => false
  end.

Definition is_prim (v : value) : bool :=
  match v with VPrim _ => true | _ => false end.

End JS.

Import JS.

(** ** Provider state *)

(** An emitted event: its name and its arguments. *)
Definition event : Type := string * list value.

(** Console and [loglevel] output: level, text, further arguments.  The
    texts of [messages.js] are named by their key. *)
Inductive logentry : Type :=
| Log (level : string) (msg : string) (data : list value).

(** A JSON-RPC response object: a property that is absent is [None]. *)
Record Response : Type := mkResponse {
  res_result : option value;
  res_error : option value
}.

Definition prop (o : option value) : value :=
  match o with Some v => v | None => undefined end.

(** The continuation a request is handed to the RPC engine with. *)
Inductive callback : Type :=
| PromiseCb (pid : nat)          (* rpcPromiseCallback(resolve, reject) *)
| UserCb (cid : nat)             (* a callback of the caller's *)
| NoopCb                         (* () => {} *)
| AccountsCb (inner : callback). (* the legacy eth_accounts wrapper *)

(** The provider instance ([this]) and the module-level [_state], with the
    logs of what the code did to the outside. *)
Record State : Type := mkState {
  (* _state *)
  isConnected : option bool;          (* undefined = None *)
  accounts : list value;
  isUnlocked : prim;
  sentSiteMetadata : bool;
  sentWarnings : list string;         (* the flags that are set *)
  (* this *)
  selectedAddress : value;
  networkVersion : prim;
  chainId : prim;
  (* environment *)
  errorListeners : nat;               (* this.listenerCount('error') *)
  web3 : option value;                (* window.web3.eth.defaultAccount *)
  (* effects, oldest first *)
  emitted : list event;
  console : list logentry;
  handled : list (value * callback);  (* rpcEngine.handle(payload, cb) *)
  delivered : list (callback * (value * Response)); (* cb(err, res) *)
  nextPromise : nat
}.

(** The state the constructor leaves: [_state] as declared at module level,
    the public fields as assigned in the constructor. *)
Definition init (listeners : nat) (w : option value) : State :=
  mkState None [] (PBool false) false []
          null PUndef PUndef listeners w
          [] [] [] [] 0.

Definition set_isConnected (b : option bool) (s : State) : State :=
  mkState b (accounts s) (isUnlocked s) (sentSiteMetadata s) (sentWarnings s)
          (selectedAddress s) (networkVersion s) (chainId s) (errorListeners s) (web3 s)
          (emitted s) (console s) (handled s) (delivered s) (nextPromise s).

Definition set_accounts (l : list value) (s : State) : State :=
  mkState (isConnected s) l (isUnlocked s) (sentSiteMetadata s) (sentWarnings s)
          (selectedAddress s) (networkVersion s) (chainId s) (errorListeners s) (web3 s)
          (emitted s) (console s) (handled s) (delivered s) (nextPromise s).

Definition set_isUnlocked (p : prim) (s : State) : State :=
  mkState (isConnected s) (accounts s) p (sentSiteMetadata s) (sentWarnings s)
          (selectedAddress s) (networkVersion s) (chainId s) (errorListeners s) (web3 s)
          (emitted s) (console s) (handled s) (delivered s) (nextPromise s).

Definition set_sentSiteMetadata (b : bool) (s : State) : State :=
  mkState (isConnected s) (accounts s) (isUnlocked s) b (sentWarnings s)
          (selectedAddress s) (networkVersion s) (chainId s) (errorListeners s) (web3 s)
          (emitted s) (console s) (handled s) (delivered s) (nextPromise s).

Definition set_sentWarnings (w : list string) (s : State) : State :=
  mkState (isConnected s) (accounts s) (isUnlocked s) (sentSiteMetadata s) w
          (selectedAddress s) (networkVersion s) (chainId s) (errorListeners s) (web3 s)
          (emitted s) (console s) (handled s) (delivered s) (nextPromise s).

Definition set_selectedAddress (v : value) (s : State) : State :=
  mkState (isConnected s) (accounts s) (isUnlocked s) (sentSiteMetadata s) (sentWarnings s)
          v (networkVersion s) (chainId s) (errorListeners s) (web3 s)
          (emitted s) (console s) (handled s) (delivered s) (nextPromise s).

Definition set_networkVersion (p : prim) (s : State) : State :=
  mkState (isConnected s) (accounts s) (isUnlocked s) (sentSiteMetadata s) (sentWarnings s)
          (selectedAddress s) p (chainId s) (errorListeners s) (web3 s)
          (emitted s) (console s) (handled s) (delivered s) (nextPromise s).

Definition set_chainId (p : prim) (s : State) : State :=
  mkState (isConnected s) (accounts s) (isUnlocked s) (sentSiteMetadata s) (sentWarnings s)
          (selectedAddress s) (networkVersion s) p (errorListeners s) (web3 s)
          (emitted s) (console s) (handled s) (delivered s) (nextPromise s).

Definition set_web3 (w : option value) (s : State) : State :=
  mkState (isConnected s) (accounts s) (isUnlocked s) (sentSiteMetadata s) (sentWarnings s)
          (selectedAddress s) (networkVersion s) (chainId s) (errorListeners s) w
          (emitted s) (console s) (handled s) (delivered s) (nextPromise s).

Definition set_emitted (l : list event) (s : State) : State :=
  mkState (isConnected s) (accounts s) (isUnlocked s) (sentSiteMetadata s) (sentWarnings s)
          (selectedAddress s) (networkVersion s) (chainId s) (errorListeners s) (web3 s)
          l (console s) (handled s) (delivered s) (nextPromise s).

Definition set_console (l : list logentry) (s : State) : State :=
  mkState (isConnected s) (accounts s) (isUnlocked s) (sentSiteMetadata s) (sentWarnings s)
          (selectedAddress s) (networkVersion s) (chainId s) (errorListeners s) (web3 s)
          (emitted s) l (handled s) (delivered s) (nextPromise s).

Definition set_handled (l : list (value * callback)) (s : State) : State :=
  mkState (isConnected s) (accounts s) (isUnlocked s) (sentSiteMetadata s) (sentWarnings s)
          (selectedAddress s) (networkVersion s) (chainId s) (errorListeners s) (web3 s)
          (emitted s) (console s) l (delivered s) (nextPromise s).

Definition set_delivered (l : list (callback * (value * Response))) (s : State) : State :=
  mkState (isConnected s) (accounts s) (isUnlocked s) (sentSiteMetadata s) (sentWarnings s)
          (selectedAddress s) (networkVersion s) (chainId s) (errorListeners s) (web3 s)
          (emitted s) (console s) (handled s) l (nextPromise s).

Definition set_nextPromise (n : nat) (s : State) : State :=
  mkState (isConnected s) (accounts s) (isUnlocked s) (sentSiteMetadata s) (sentWarnings s)
          (selectedAddress s) (networkVersion s) (chainId s) (errorListeners s) (web3 s)
          (emitted s) (console s) (handled s) (delivered s) n.

Definition emit (name : string) (args : list value) (s : State) : State :=
  set_emitted (emitted s ++ [(name, args)]) s.

Definition log (e : logentry) (s : State) : State :=
  set_console (console s ++ [e]) s.

(** [this.rpcEngine.handle(payload, cb)] *)
Definition handle (payload : value) (cb : callback) (s : State) : State :=
  set_handled (handled s ++ [(payload, cb)]) s.

Definition warned (name : string) (s : State) : bool :=
  existsb (String.eqb name) (sentWarnings s).

(** [if (!_state.sentWarnings.name) { console.warn(...); flag = true }] *)
Definition warn_once (name : string) (s : State) : State :=
  if warned name s then s
  else set_sentWarnings (name :: sentWarnings s)
         (log (Log "warn" ("messages.warnings." ++ name)%string []) s).

(** ** Config sync: the [publicConfigStore.subscribe] handler *)

(** A pushed snapshot; a field that is absent is [None].  The fields hold
    primitives (chain and network ids are strings, the lock status a
    boolean). *)
Record Snapshot : Type := mkSnapshot {
  snap_isUnlocked : option prim;
  snap_chainId : option prim;
  snap_networkVersion : option prim
}.

(** [if ('isUnlocked' in state && state.isUnlocked !== _state.isUnlocked)]:
    the lock status is kept in the module's [_state], which the handler
    reaches by name. *)
Definition syncUnlocked (new : option prim) (s : State) : State :=
  match new with
  | Some u => if negb (prim_eqb u (isUnlocked s)) then set_isUnlocked u s else s
  | None => s
  end.

(** The object the handler runs on.  The handler is written as a plain
    [function (state) { ... }], not as an arrow function, so [this] in its
    body is the object it is called on, and the store calls its subscribers
    on itself.  [this.chainId], [this.networkVersion] and [this.emit] are
    therefore the store's: two properties that are absent, hence
    [undefined], until the handler writes them, and the events the store
    emits to its own listeners. *)
Record Receiver : Type := mkReceiver {
  this_chainId : prim;
  this_networkVersion : prim;
  this_emitted : list event
}.

(** [this.publicConfigStore = new ObservableStore({ storageKey: 'MetaMask-Config' })] *)
Definition publicConfigStore : Receiver := mkReceiver PUndef PUndef [].

(** [this.emit(name, ...args)] in the handler *)
Definition this_emit (name : string) (args : list value) (this : Receiver) : Receiver :=
  mkReceiver (this_chainId this) (this_networkVersion this)
             (this_emitted this ++ [(name, args)]).

(** Emit chainChanged event on chain change *)
Definition syncChain (new : option prim) (this : Receiver) : Receiver :=
  match new with
  | Some c =>
      if negb (prim_eqb c (this_chainId this)) then
        let this := mkReceiver c (this_networkVersion this) (this_emitted this) in
        let this := this_emit "chainChanged" [VPrim (this_chainId this)] this in
        this_emit "chainIdChanged" [VPrim (this_chainId this)] this
      else this
  | None => this
  end.

(** Emit networkChanged event on network change *)
Definition syncNetwork (new : option prim) (this : Receiver) : Receiver :=
  match new with
  | Some n =>
      if negb (prim_eqb n (this_networkVersion this)) then
        let this := mkReceiver (this_chainId this) n (this_emitted this) in
        this_emit "networkChanged" [VPrim (this_networkVersion this)] this
      else this
  | None => this
  end.

(** The handler: the three tests in the order of the source, on the
    receiver [this] and the module's state. *)
Definition configHandler (snap : Snapshot) (this : Receiver) (s : State)
  : Receiver * State :=
  let s := syncUnlocked (snap_isUnlocked snap) s in
  let this := syncChain (snap_chainId snap) this in
  let this := syncNetwork (snap_networkVersion snap) this in
  (this, s).

(** A snapshot delivered on the config channel, as the provider and the
    module's state see it.  The store runs the handler on itself, so of the
    three tests only the first, which names [_state] and not [this],
    reaches them: the provider's [chainId] and [networkVersion] are not
    written and the provider emits nothing. *)
Definition onConfig (snap : Snapshot) (s : State) : State :=
  syncUnlocked (snap_isUnlocked snap) s.

(** The events a step appended to the log. *)
Definition new_events (before after : State) : list event :=
  skipn (List.length (emitted before)) (emitted after).

Definition named (name : string) (e : event) : bool := String.eqb name (fst e).

(** The events of one name, in the order emitted. *)
Definition events_named (name : string) (l : list event) : list event :=
  filter (named name) l.

Definition count_event (name : string) (l : list event) : nat :=
  List.length (events_named name l).

(** ** State reconciler: [_handleAccountsChanged] *)

Definition nonArrayMsg : string :=
  "MetaMask: Received non-array accounts parameter. Please report this bug.".

(** The list the reconciler works with: its argument when that is an array,
    the empty list otherwise. *)
Definition effective_accounts (a : value) : list value :=
  match a with VArr l => l | _ => [] end.

Definition _handleAccountsChanged (a : value) (s : State) : State :=
  (* defensive programming *)
  let s1 := if negb (isArray a)
            then log (Log "error" nonArrayMsg [a]) s else s in
  let l := effective_accounts a in
  (* emit accountsChanged if anything about the accounts array has changed *)
  let s2 := if negb (dequal (VArr (accounts s1)) (VArr l))
            then set_accounts l (emit "accountsChanged" [VArr l] s1)
            else s1 in
  (* handle selectedAddress *)
  let s3 := if negb (strict_eq (selectedAddress s2) (first l))
            then set_selectedAddress (or_else (first l) null) s2
            else s2 in
  (* handle web3 *)
  match web3 s3 with
  | Some _ => set_web3 (Some (selectedAddress s3)) s3
  | None => s3
  end.

(** ** Connection lifecycle *)

(** [logStreamDisconnectWarning], bound to the provider; [err] is the stack
    of the error, when there is one. *)
Definition logStreamDisconnectWarning (remoteLabel : string)
    (err : option string) (s : State) : State :=
  let warningMsg :=
    ("MetamaskInpageProvider - lost connection to " ++ remoteLabel)%string in
  let warningMsg :=
    match err with
    | Some stack => (warningMsg ++ String (Ascii.ascii_of_nat 10) stack)%string
    | None => warningMsg
    end in
  let s1 := log (Log "warn" warningMsg []) s in
  if Nat.ltb 0 (errorListeners s1)
  then emit "error" [str warningMsg] s1
  else s1.

Definition closeEvent : value :=
  VObj [("code", num 1011);
        ("reason", str "MetaMask background communication error.")].

Definition isConnected_truthy (s : State) : bool :=
  match isConnected s with Some true => true | _ => false end.

(** Called when connection is lost to critical streams. *)
Definition _handleDisconnect (streamName : string) (err : option string)
    (s : State) : State :=
  let s1 := logStreamDisconnectWarning streamName err s in
  let s2 := if isConnected_truthy s1 then emit "close" [closeEvent] s1 else s1 in
  set_isConnected (Some false) s2.

(** The deferred [this.emit('connect')] and the provider's own listener for
    it, which sets the connected flag. *)
Definition onConnect (s : State) : State :=
  set_isConnected (Some true) (emit "connect" [] s).

(** ** Responses *)

Inductive outcome : Type :=
| Resolved (v : value)
| Rejected (e : value).

(** [rpcPromiseCallback(resolve, reject)(error, response)] *)
Definition rpcPromiseCallback (error : value) (response : Response) : outcome :=
  let e := or_else error (prop (res_error response)) in
  if truthy e then Rejected e else Resolved (prop (res_result response)).

(** The return handler of [createErrorMiddleware]: what it makes of the
    response, and what it logs. *)
Definition createErrorMiddleware (req_method : value) (res : Response)
  : Response * list logentry :=
  let error := prop (res_error res) in
  if negb (truthy error) then (res, [])
  else
    let code := match get error "code" with Some c => c | None => undefined end in
    let message := match get error "message" with Some m => m | None => undefined end in
    if strict_eq req_method (str "eth_accounts") && strict_eq code (num 4100) then
      (mkResponse (Some (VArr [])) None,
       [Log "warn" "MetaMask - Ignored RPC Error: " [message; error]])
    else
      (res, [Log "error" "MetaMask - RPC Error: " [message; error]]).

(** The legacy [eth_accounts] callback of [_sendAsync], up to its call of
    [userCallback]: the response it passes on and the state it leaves.
    [None]: reading [res.error.code] throws. *)
Definition accountsCb (err : value) (res : Response) (s : State)
  : option (Response * State) :=
  let res1 :=
    if truthy err then
      match get err "code" with
      | None => None
      | Some c =>
          let code := if truthy c then Some c else get (prop (res_error res)) "code" in
          match code with
          | None => None
          | Some code =>
              if strict_eq code (num 4100)
              then Some (mkResponse (Some (VArr [])) None)
              else Some res
          end
      end
    else Some res in
  match res1 with
  | None => None
  | Some res1 =>
      Some (res1, _handleAccountsChanged (or_else (prop (res_result res1)) (VArr [])) s)
  end.

(** Invoking a continuation with [(err, res)]; [None] when it throws. *)
Fixpoint invoke (cb : callback) (err : value) (res : Response) (s : State)
  : option State :=
  match cb with
  | AccountsCb inner =>
      match accountsCb err res s with
      | Some (res1, s1) => invoke inner err res1 s1
      | None => None
      end
  | NoopCb => Some s
  | _ => Some (set_delivered (delivered s ++ [(cb, (err, res))]) s)
  end.

Definition callback_eqb (a b : callback) : bool :=
  match a, b with
  | PromiseCb i, PromiseCb j => Nat.eqb i j
  | UserCb i, UserCb j => Nat.eqb i j
  | _, _ => false
  end.

(** How the promise [pid] was settled, if it was. *)
Definition settled (pid : nat) (s : State) : option outcome :=
  match find (fun d => callback_eqb (PromiseCb pid) (fst d)) (delivered s) with
  | Some (_, (err, res)) => Some (rpcPromiseCallback err res)
  | None => None
  end.

(** The engine answers the [i]-th request it was handed. *)
Definition onReply (i : nat) (err : value) (res : Response) (s : State) : State :=
  match nth_error (handled s) i with
  | Some (_, cb) => match invoke cb err res s with Some s' => s' | None => s end
  | None => s
  end.

(** ** Request dispatch *)

Inductive error : Type :=
| InvalidParams (payload : value)    (* new Error(messages.errors.invalidParams(), payload) *)
| UnsupportedSync (method : value)   (* new Error(messages.errors.unsupportedSync(method)) *)
| TypeError.                         (* a property read on null or undefined *)

(** [payload.k = x]: an own property on an object; a primitive is left as
    it is. *)
Definition set_prop (v : value) (k : string) (x : value) : value :=
  match v with
  | VObj o => VObj (set_field k x o)
  | _ => v
  end.

Definition method_of (payload : value) : value :=
  match get payload "method" with Some m => m | None => undefined end.

(** Internal RPC method: forwards the request to the RPC engine.  [None]
    when reading [payload.jsonrpc] throws.  [sendSiteMetadata] lives in a
    file of its own; here it only sets its flag. *)
Definition _sendAsync (payload : value) (userCallback : callback) (s : State)
  : option State :=
  match get payload "jsonrpc" with
  | None => None
  | Some j =>
      let payload := if negb (truthy j)
                     then set_prop payload "jsonrpc" (str "2.0") else payload in
      let s := if negb (sentSiteMetadata s) then set_sentSiteMetadata true s else s in
      let m := method_of payload in
      if strict_eq m (str "eth_signTypedData") && negb (warned "signTypedData" s)
      then Some (handle payload userCallback (warn_once "signTypedData" s))
      else if strict_eq m (str "eth_accounts")
      then Some (handle payload (AccountsCb userCallback) s)
      else Some (handle payload userCallback s)
  end.

(** The payload object once [_sendAsync] has run on it: the version is
    written into the object the caller passed, not into a copy, so whoever
    holds that object reads the written value afterwards. *)
Definition sentPayload (payload : value) : value :=
  match get payload "jsonrpc" with
  | Some j =>
      if negb (truthy j) then set_prop payload "jsonrpc" (str "2.0") else payload
  | None => payload
  end.

(** Deprecated [sendAsync(payload, cb)] *)
Definition sendAsync (payload : value) (cb : callback) (s : State) : option State :=
  _sendAsync payload cb (warn_once "sendAsync" s).

(** [makeThenable({ id, jsonrpc, result }, 'result')], as the plain object
    it looks like. *)
Definition syncResponse (payload result : value) : value :=
  VObj [("id", prop (lookup "id" (match payload with VObj o => o | _ => [] end)));
        ("jsonrpc", prop (lookup "jsonrpc" (match payload with VObj o => o | _ => [] end)));
        ("result", result)].

(** Deprecated [_sendSync(payload)]: the value returned or the error
    thrown, and the state left.  The returned object is built after the
    [switch], from [payload.id] and [payload.jsonrpc] as they are then: in
    the [eth_uninstallFilter] case [sendAsync] has already run on the same
    payload object. *)
Definition _sendSync (payload : value) (s : State) : (error + value) * State :=
  let s := warn_once "sendSync" s in
  let m := method_of payload in
  if strict_eq m (str "eth_accounts") then
    (inr (syncResponse payload
            (if truthy (selectedAddress s) then VArr [selectedAddress s] else VArr [])), s)
  else if strict_eq m (str "eth_coinbase") then
    (inr (syncResponse payload (or_else (selectedAddress s) null)), s)
  else if strict_eq m (str "eth_uninstallFilter") then
    match sendAsync payload NoopCb s with
    | Some s' => (inr (syncResponse (sentPayload payload) (VPrim (PBool true))), s')
    | None => (inl TypeError, warn_once "sendAsync" s)
    end
  else if strict_eq m (str "net_version") then
    (inr (syncResponse payload (or_else (VPrim (networkVersion s)) null)), s)
  else (inl (UnsupportedSync m), s).

Definition syncMethods : list string :=
  ["eth_accounts"; "eth_coinbase"; "eth_uninstallFilter"; "net_version"].

(** [syncMethods.includes(v)] *)
Definition includes (l : list string) (v : value) : bool :=
  existsb (fun k => strict_eq (str k) v) l.

(** [new Promise((resolve, reject) => this._sendAsync(payload,
    rpcPromiseCallback(resolve, reject)))]: the promise made, and the state
    after the executor ran; [inl] when the executor threw. *)
Definition request (payload : value) (s : State) : (error + nat) * State :=
  let pid := nextPromise s in
  let s := set_nextPromise (S pid) s in
  match _sendAsync payload (PromiseCb pid) s with
  | Some s' => (inr pid, s')
  | None => (inl TypeError, s)
  end.

(** The engine's answers to the requests of one flow, in order:
    the [(err, res)] its callback is invoked with. *)
Definition replies : Type := list (value * Response).

(** One request and, when the engine has an answer for it, the settlement
    of its promise ([None]: still pending). *)
Definition ask (payload : value) (rs : replies) (s : State)
  : State * option outcome * replies :=
  let i := List.length (handled s) in
  match request payload s with
  | (inl _, s1) => (s1, Some (Rejected (str "TypeError")), rs)
  | (inr pid, s1) =>
      match rs with
      | [] => (s1, None, [])
      | (err, res) :: rs' =>
          let s2 := onReply i err res s1 in (s2, settled pid s2, rs')
      end
  end.

Definition ethAccountsRequest : value := VObj [("method", str "eth_accounts")].

Definition requestPermissionsRequest : value :=
  VObj [("method", str "wallet_requestPermissions");
        ("params", VArr [VObj [("eth_accounts", VObj [])]])].

Definition nonEmptyArray (v : value) : bool :=
  match v with VArr (_ :: _) => true | _ => false end.

(** Internal method for calling EIP-1102 eth_requestAccounts, run against
    the answers [rs] of the engine: the state left and how the returned
    promise settled ([None]: still pending). *)
Definition _requestAccounts (rs : replies) (s : State) : State * option outcome :=
  let '(s1, o1, rs1) := ask ethAccountsRequest rs s in
  let '(s2, o2) :=
    match o1 with
    | Some (Resolved result) =>
        if negb (nonEmptyArray result) then
          let '(s2, o2, rs2) := ask requestPermissionsRequest rs1 s1 in
          match o2 with
          | Some (Resolved _) =>
              let '(s3, o3, _) := ask ethAccountsRequest rs2 s2 in (s3, o3)
          | _ => (s2, o2)
          end
        else (s1, Some (Resolved result))
    | _ => (s1, o1)
    end in
  (* .catch(err => console.error(err)) *)
  match o2 with
  | Some (Rejected e) => (log (Log "error" "" [e]) s2, Some (Resolved undefined))
  | _ => (s2, o2)
  end.

(** What a call of [send] gives back to its caller. *)
Inductive send_result : Type :=
| Threw (e : error)            (* a synchronous exception *)
| Returned (v : value)         (* the object of _sendSync *)
| Promise (pid : nat)          (* a promise on one request *)
| RejectedPromise (e : error)  (* a promise rejected in its executor *)
| AccountsPromise.             (* the promise of _requestAccounts *)

(** [params] as [send] puts it in the payload. *)
Definition wrap_params (params : value) : value :=
  if negb (isArray params) then VArr [params] else params.

(** The typecheck of [send]: [None] when reading [payload.method] throws. *)
Definition malformed (payload : value) : option bool :=
  if isArray payload then Some true
  else if negb (typeof_object payload) then Some true
  else match get payload "method" with
       | Some m => Some (negb (typeof_string m))
       | None => None
       end.

(** [send], from the typecheck on. *)
Definition send_payload (payload : value) (s : State) : send_result * State :=
  match malformed payload with
  | None => (Threw TypeError, s)
  | Some true => (Threw (InvalidParams payload), s)
  | Some false =>
      if strict_eq (method_of payload) (str "eth_requestAccounts")
      then (AccountsPromise, fst (_requestAccounts [] s))
      else match request payload s with
           | (inr pid, s') => (Promise pid, s')
           | (inl e, s') => (RejectedPromise e, s')
           end
  end.

(** [send(methodOrPayload, params)] *)
Definition send (methodOrPayload params : value) (s : State) : send_result * State :=
  if negb (strict_eq params undefined) then
    send_payload (VObj [("method", methodOrPayload); ("params", wrap_params params)]) s
  else if typeof_string methodOrPayload then
    send_payload (VObj [("method", methodOrPayload); ("params", params)]) s
  else
    let payload := methodOrPayload in
    match get payload "method" with
    | None => (Threw TypeError, s)
    | Some m =>
        if includes syncMethods m then
          match _sendSync payload s with
          | (inl e, s') => (Threw e, s')
          | (inr v, s') => (Returned v, s')
          end
        else send_payload payload s
    end.

(** Deprecated [enable()] *)
Definition enable (rs : replies) (s : State) : State * option outcome :=
  _requestAccounts rs (warn_once "enable" s).

(** The [notification] listener on the RPC connection, with the provider's
    own [data] listener behind it. *)
Definition onNotification (payload : value) (s : State) : State :=
  match get payload "method" with
  | None => s
  | Some m =>
      if strict_eq m (str "wallet_accountsChanged")
      then _handleAccountsChanged (prop (get payload "result")) s
      else
        let s1 := emit "data" [null; payload] s in
        if strict_eq m (str "eth_subscription") then
          match get (prop (get payload "params")) "result" with
          | Some r => emit "notification" [r] s1
          | None => s1
          end
        else s1
  end.

(** ** Runs of the provider *)

(** What can happen to a provider once constructed. *)
Inductive op : Type :=
| OpConfig (snap : Snapshot)
| OpNotification (payload : value)
| OpAccounts (a : value)
| OpDisconnect (streamName : string) (err : option string)
| OpConnect
| OpReply (i : nat) (err : value) (res : Response)
| OpSend (methodOrPayload params : value)
| OpSendAsync (payload : value) (cid : nat)
| OpEnable.

Definition step (o : op) (s : State) : State :=
  match o with
  | OpConfig snap => onConfig snap s
  | OpNotification payload => onNotification payload s
  | OpAccounts a => _handleAccountsChanged a s
  | OpDisconnect n e => _handleDisconnect n e s
  | OpConnect => onConnect s
  | OpReply i err res => onReply i err res s
  | OpSend m p => snd (send m p s)
  | OpSendAsync payload cid =>
      match sendAsync payload (UserCb cid) s with
      | Some s' => s'
      | None => warn_once "sendAsync" s
      end
  | OpEnable => fst (enable [] s)
  end.

Definition run (ops : list op) (s : State) : State :=
  fold_left (fun s o => step o s) ops s.

(** ** Specifications *)

(** The events the spec asks of one snapshot, read against a cached chain
    id and network version. *)
Definition expected_config_events (snap : Snapshot) (cachedChain cachedNetwork : prim)
  : list event :=
  match snap_chainId snap with
  | Some c =>
      if prim_eqb c cachedChain then []
      else [("chainChanged", [VPrim c]); ("chainIdChanged", [VPrim c])]
  | None => []
  end ++
  match snap_networkVersion snap with
  | Some n =>
      if prim_eqb n cachedNetwork then []
      else [("networkChanged", [VPrim n])]
  | None => []
  end.

Definition field_after (new : option prim) (cached : prim) : prim :=
  match new with Some v => v | None => cached end.

(** An account list of primitive values (addresses are strings). *)
Definition prim_input (a : value) : bool :=
  match a with
  | VArr l => forallb is_prim l
  | _ => true
  end.

(** The operations whose account lists, when they carry one, hold
    primitive values. *)
Definition op_prim (o : op) : bool :=
  match o with
  | OpAccounts a => prim_input a
  | OpNotification payload => prim_input (prop (get payload "result"))
  | OpReply _ _ res => prim_input (prop (res_result res))
  | _ => true
  end.

(** [selectedAddress] as the spec words it: the first element of the new
    list, or [null] if the list is empty. *)
Definition spec_selectedAddress (l : list value) : value :=
  match l with
  | [] => null
  | x :: _ => x
  end.

(** The invariant of the reconciled pair: the selected address is [null],
    or it is truthy and heads the cached list. *)
Definition selected_ok (s : State) : Prop :=
  selectedAddress s = null \/
  (truthy (selectedAddress s) = true /\
   hd_error (accounts s) = Some (selectedAddress s)).

(** A step that leaves the reconciled pair alone. *)
Definition same_accounts (s s' : State) : Prop :=
  accounts s' = accounts s /\ selectedAddress s' = selectedAddress s.

(** A step that only talks to the engine and the console: the reconciled
    pair, the connected flag and the logs of events and of answered
    callbacks stay as they are. *)
Definition same_core (s s' : State) : Prop :=
  accounts s' = accounts s /\ selectedAddress s' = selectedAddress s /\
  isConnected s' = isConnected s /\ emitted s' = emitted s /\
  delivered s' = delivered s.

Definition is_connect (o : op) : bool :=
  match o with OpConnect => true | _ => false end.

Definition is_disconnect (o : op) : bool :=
  match o with OpDisconnect _ _ => true | _ => false end.

(** A step that keeps the connected flag and emits no [close]. *)
Definition no_close (s s' : State) : Prop :=
  isConnected s' = isConnected s /\
  exists l, emitted s' = emitted s ++ l /\ count_event "close" l = 0.

(** What is left of the connection's one [close]. *)
Definition close_budget (s : State) : nat :=
  if isConnected_truthy s then 1 else 0.

(** The promise [pid] waits for the engine: its request was handed over
    and its callback has not been invoked. *)
Definition awaiting (pid : nat) (s : State) : Prop :=
  (exists payload, In (payload, PromiseCb pid) (handled s)) /\
  settled pid s = None.

(** A payload that is malformed in the spec's sense: an array, not an
    object, or with a method that is not a string. *)
Definition is_object (v : value) : bool :=
  match v with VObj _ => true | _ => false end.

Definition malformed_payload (payload : value) : Prop :=
  isArray payload = true \/ is_object payload = false \/
  typeof_string (method_of payload) = false.

(** The [accountsChanged] emission a response to [eth_accounts] with no
    accounts calls for: one event carrying the empty list when the cache
    was non-empty, none otherwise. *)
Definition cleared_accounts_events (s : State) : list event :=
  match accounts s with
  | [] => []
  | _ :: _ => [("accountsChanged", [VArr []])]
  end.

(** No callback has been invoked for a promise not yet made. *)
Definition fresh (s : State) : Prop :=
  forall pid, nextPromise s <= pid ->
    find (fun d => callback_eqb (PromiseCb pid) (fst d)) (delivered s) = None.

(** A successful answer of the engine carrying [v]. *)
Definition success (v : value) : value * Response :=
  (null, mkResponse (Some v) None).

(** The requests of the composite flow, as the engine receives them. *)
Definition ethAccountsSent : value :=
  VObj [("method", str "eth_accounts"); ("jsonrpc", str "2.0")].

Definition requestPermissionsSent : value :=
  VObj [("method", str "wallet_requestPermissions");
        ("params", VArr [VObj [("eth_accounts", VObj [])]]);
        ("jsonrpc", str "2.0")].

(** The promise a continuation settles in the end, if any. *)
Fixpoint leaf_pid (cb : callback) : option nat :=
  match cb with
  | PromiseCb pid => Some pid
  | AccountsCb inner => leaf_pid inner
  | _ => None
  end.

(** Every promise the engine holds a continuation for has been made. *)
Definition bounded (s : State) : Prop :=
  forall payload cb pid,
    In (payload, cb) (handled s) -> leaf_pid cb = Some pid -> pid < nextPromise s.

(** A step that answers no request and hands the engine continuations of
    promises already made only. *)
Definition extends (s s' : State) : Prop :=
  delivered s' = delivered s /\ nextPromise s <= nextPromise s' /\
  forall payload cb pid,
    In (payload, cb) (handled s') -> leaf_pid cb = Some pid ->
    In (payload, cb) (handled s) \/ pid < nextPromise s'.

(** ** Accessors *)

(** Deprecated [isConnected()]: what it returns, and the state left. *)
Definition isConnected_call (s : State) : option bool * State :=
  let s := warn_once "isConnected" s in
  (isConnected s, s).

(** The methods behind the [_metamask] proxy. *)
Inductive metamask_method : Type :=
| IsUnlocked
| IsEnabled
| IsApproved.

(** [Array.isArray(_state.accounts) && _state.accounts.length > 0] *)
Definition hasAccounts (s : State) : bool :=
  match accounts s with [] => false | _ :: _ => true end.

(** [ethereum._metamask.m()]: the [get] trap of the proxy, then the method;
    the value returned (for the async methods, the one the promise resolves
    to) and the state left. *)
Definition _metamask_call (m : metamask_method) (s : State) : value * State :=
  let s := warn_once "experimentalMethods" s in
  (match m with
   | IsUnlocked => VPrim (isUnlocked s)
   | IsEnabled | IsApproved => VPrim (PBool (hasAccounts s))
   end, s).

(** The timer of the constructor that warns about the deprecated reload;
    [autoRefresh] is [this.autoRefreshOnNetworkChange] when it fires. *)
Definition autoReloadTimer (autoRefresh : bool) (s : State) : State :=
  if autoRefresh && negb (warned "autoReload" s)
  then warn_once "autoReload" s else s.

(** ** [authorize] *)

(** An [Error] object, by its message. *)
Definition errorObject (msg : string) : value := VObj [("message", str msg)].

Definition invalidPermissions : value :=
  errorObject "Invalid Params: Expected permissions request object.".

Definition typeError : value := errorObject "TypeError".

(** [Object.keys(o)]; an object lists each of its keys once. *)
Definition keys (o : list (string * value)) : list string := map fst o.

(** [name.startsWith('wallet_plugin_')] *)
Definition isPluginName (name : string) : bool :=
  String.prefix "wallet_plugin_" name.

Definition as_string (v : value) : option string :=
  match v with VPrim (PStr x) => Some x | _ => None end.

(** [f] on every element, unless it fails on one. *)
Fixpoint traverse {A B} (f : A -> option B) (l : list A) : option (list B) :=
  match l with
  | [] => Some []
  | x :: l' =>
      match f x, traverse f l' with
      | Some y, Some ys => Some (y :: ys)
      | _, _ => None
      end
  end.

(** [perms.map(perm => perm.parentCapability)
         .filter(name => name.startsWith('wallet_plugin_'))];
    [None] is the TypeError of [map] on what is not an array, of reading
    the property on [null] or [undefined], or of [startsWith] on what is
    not a string. *)
Definition permittedPlugins (perms : value) : option (list string) :=
  match perms with
  | VArr l =>
      match traverse (fun perm => get perm "parentCapability") l with
      | Some names =>
          match traverse as_string names with
          | Some names => Some (filter isPluginName names)
          | None => None
          end
      | None => None
      end
  | _ => None
  end.

(** [requestedPlugins.filter(name => permittedPlugins.includes(name))] *)
Definition grantedPlugins (requested permitted : list string) : list string :=
  filter (fun name => existsb (String.eqb name) permitted) requested.

Definition permissionsRequest (requested : value) : value :=
  VObj [("method", str "wallet_requestPermissions");
        ("params", VArr [requested])].

Definition installRequest (granted : list string) : value :=
  VObj [("method", str "wallet_installPlugins");
        ("params", VArr (map str granted))].

Definition isNil {A} (l : list A) : bool :=
  match l with [] => true | _ :: _ => false end.

(** [authorize(requestedPermissions)], from the permissions request on,
    for a request object with the properties [o]. *)
Definition authorize_flow (o : list (string * value)) (rs : replies) (s : State)
  : State * option outcome :=
  (* find requested plugins, if any *)
  let requestedPlugins := filter isPluginName (keys o) in
  (* request permissions, then install plugins, if any *)
  let '(s1, o1, rs1) := ask (permissionsRequest (VObj o)) rs s in
  match o1 with
  | Some (Resolved perms) =>
      (* just return the permissions if no plugins were requested *)
      if isNil requestedPlugins
      then (s1, Some (Resolved (VArr [perms; VArr []])))
      else
        match permittedPlugins perms with
        | None => (s1, Some (Rejected typeError))
        | Some permitted =>
            let granted := grantedPlugins requestedPlugins permitted in
            (* just return the permissions if no plugins were granted *)
            if isNil granted
            then (s1, Some (Resolved (VArr [perms; VArr []])))
            else
              (* attempt to install newly granted plugins *)
              let '(s2, o2, _) := ask (installRequest granted) rs1 s1 in
              match o2 with
              | Some (Resolved installedPlugins) =>
                  (s2, Some (Resolved (VArr [perms; installedPlugins])))
              | Some (Rejected error) =>
                  (* if plugin installation fails, still return the permissions *)
                  if strict_eq (prop (get error "code")) (num 4301)
                  then (log (Log "error" "" [error]) s2,
                        Some (Resolved (VArr [perms; VArr []])))
                  else (s2, Some (Rejected error))
              | None => (s2, None)
              end
        end
  | _ => (s1, o1)
  end.

(** [authorize(requestedPermissions)], run against the answers [rs] of the
    engine: the state left and how the returned promise settled. *)
Definition authorize (requestedPermissions : value) (rs : replies) (s : State)
  : State * option outcome :=
  (* input validation *)
  match requestedPermissions with
  | VPrim PNull => (s, Some (Rejected typeError))   (* Object.keys(null) *)
  | VPrim _ => (s, Some (Rejected invalidPermissions))
  | VArr _ => (s, Some (Rejected invalidPermissions))
  | VObj o =>
      if Nat.eqb (List.length (keys o)) 0
      then (s, Some (Rejected invalidPermissions))
      else authorize_flow o rs s
  end.

(** ** Calls on the provider *)

(** The operations of [op] and the calls of the accessors. *)
Inductive action : Type :=
| Act (o : op)
| CallIsConnected
| CallMetamask (m : metamask_method)
| CallAuthorize (requestedPermissions : value)
| AutoReloadTimer (autoRefresh : bool).

Definition perform (a : action) (s : State) : State :=
  match a with
  | Act o => step o s
  | CallIsConnected => snd (isConnected_call s)
  | CallMetamask m => snd (_metamask_call m s)
  | CallAuthorize r => fst (authorize r [] s)
  | AutoReloadTimer b => autoReloadTimer b s
  end.

Definition perform_all (l : list action) (s : State) : State :=
  fold_left (fun s a => perform a s) l s.

(** The deprecation warning of the flag [name], as logged. *)
Definition is_warning (name : string) (e : logentry) : bool :=
  match e with
  | Log level msg _ =>
      String.eqb level "warn" &&
      String.eqb msg ("messages.warnings." ++ name)%string
  end.

Definition count_warning (name : string) (l : list logentry) : nat :=
  List.length (filter (is_warning name) l).

(** The connect or disconnect that comes last in a run, if there is one:
    [true] for a connect announcement. *)
Fixpoint last_lifecycle (ops : list op) : option bool :=
  match ops with
  | [] => None
  | o :: ops' =>
      match last_lifecycle ops' with
      | Some b => Some b
      | None =>
          match o with
          | OpConnect => Some true
          | OpDisconnect _ _ => Some false
          | _ => None
          end
      end
  end.

(** Nothing is warned about in [l], and the flags are kept. *)
Definition no_warning (s s' : State) : Prop :=
  sentWarnings s' = sentWarnings s /\
  exists l, console s' = console s ++ l /\
            forall name, count_warning name l = 0.

(** Each warning was logged at most once, and not at all while its flag is
    not set. *)
Definition warnings_once (s : State) : Prop :=
  forall name,
    count_warning name (console s) <= 1 /\
    (warned name s = false -> count_warning name (console s) = 0).

(** The requests of [authorize], as the engine receives them. *)
Definition permissionsSent (requested : value) : value :=
  VObj [("method", str "wallet_requestPermissions");
        ("params", VArr [requested]); ("jsonrpc", str "2.0")].

Definition installSent (granted : list string) : value :=
  VObj [("method", str "wallet_installPlugins");
        ("params", VArr (map str granted)); ("jsonrpc", str "2.0")].

(** What [rpcPromiseCallback] rejects with, if it rejects. *)
Definition failure (err : value) (res : Response) : value :=
  or_else err (prop (res_error res)).

(** [evs] is a history of changes leading from the list [a] to the list
    [a']: each event carries a list that differs from the one before it,
    and the last one carries [a']. *)
Fixpoint changes (a : list value) (evs : list event) (a' : list value) : Prop :=
  match evs with
  | [] => a = a'
  | e :: evs' =>
      exists l, e = ("accountsChanged", [VArr l]) /\ l <> a /\ changes l evs' a'
  end.

(** The [accountsChanged] events of a step tell the changes of the cached
    accounts, and only them. *)
Definition tracks (s s' : State) : Prop :=
  exists l, emitted s' = emitted s ++ l /\
            changes (accounts s) (events_named "accountsChanged" l) (accounts s').

(** A step that leaves alone all that the page can observe: only the
    warning flags, the console, the requests handed to the engine and the
    promise counter may differ. *)
Definition untouched (s s' : State) : Prop :=
  isConnected s' = isConnected s /\ accounts s' = accounts s /\
  isUnlocked s' = isUnlocked s /\ selectedAddress s' = selectedAddress s /\
  networkVersion s' = networkVersion s /\ chainId s' = chainId s /\
  errorListeners s' = errorListeners s /\ web3 s' = web3 s /\
  emitted s' = emitted s /\ delivered s' = delivered s.

(** The events an operation can make the provider emit. *)
Definition vocabulary (o : op) : list string :=
  match o with
  | OpConfig _ => []
  | OpNotification _ => ["accountsChanged"; "data"; "notification"]
  | OpAccounts _ => ["accountsChanged"]
  | OpDisconnect _ _ => ["error"; "close"]
  | OpConnect => ["connect"]
  | OpReply _ _ _ => ["accountsChanged"]
  | OpSend _ _ | OpSendAsync _ _ | OpEnable => []
  end.

(** What a step appended to the event log bears names of [names] only. *)
Definition emits_only (names : list string) (s s' : State) : Prop :=
  exists l, emitted s' = emitted s ++ l /\
            Forall (fun e => In (fst e) names) l.

(** The value of the field [f] in the last snapshot of a run that carried
    it, if any did. *)
Fixpoint last_pushed (f : Snapshot -> option prim) (ops : list op) : option prim :=
  match ops with
  | [] => None
  | o :: ops' =>
      match last_pushed f ops' with
      | Some v => Some v
      | None =>
          match o with
          | OpConfig snap => f snap
          | _ => None
          end
      end
  end.



Definition is_config (o : op) : bool :=
  match o with OpConfig _ => true | _ => false end.

(** [window.web3], when there is one, has the selected address as its
    default account. *)
Definition mirrored (s : State) : Prop :=
  web3 s = None \/ web3 s = Some (selectedAddress s).

(** * Properties *)

(** ** Basic facts *)

Lemma prim_eqb_eq (a b : prim) : prim_eqb a b = true <-> a = b.
Proof.
  destruct a, b; simpl; split; intro H; try discriminate; try reflexivity.
  - apply Bool.eqb_prop in H. now subst.
  - inversion H. apply Bool.eqb_reflx.
  - apply Z.eqb_eq in H. now subst.
  - inversion H. apply Z.eqb_refl.
  - apply String.eqb_eq in H. now subst.
  - inversion H. apply String.eqb_refl.
Qed.

Lemma prim_eqb_refl (a : prim) : prim_eqb a a = true.
Proof. now apply prim_eqb_eq. Qed.

Lemma prim_eqb_neq (a b : prim) : prim_eqb a b = false <-> a <> b.
Proof.
  split.
  - intros H E. apply prim_eqb_eq in E. congruence.
  - intro H. destruct (prim_eqb a b) eqn:E; [|reflexivity].
    apply prim_eqb_eq in E. contradiction.
Qed.

Lemma skipn_app_length {A} (l x : list A) : skipn (List.length l) (l ++ x) = x.
Proof. induction l; simpl; auto. Qed.

Lemma new_events_app (s s' : State) (l : list event) :
  emitted s' = emitted s ++ l -> new_events s s' = l.
Proof. unfold new_events. intros ->. apply skipn_app_length. Qed.

(** ** Config sync *)

Ltac by_prim_eqb a b :=
  let E := fresh "E" in
  destruct (prim_eqb a b) eqn:E; cbn;
  rewrite ?E, ?prim_eqb_refl, ?app_nil_r, <- ?app_assoc; cbn;
  repeat split; try reflexivity;
  try (symmetry; now apply prim_eqb_eq).

Lemma syncUnlocked_spec (new : option prim) (s : State) :
  let s' := syncUnlocked new s in
  emitted s' = emitted s /\ chainId s' = chainId s /\
  networkVersion s' = networkVersion s /\
  isUnlocked s' = field_after new (isUnlocked s) /\
  syncUnlocked new s' = s'.
Proof.
  destruct new as [u|], s; cbn; [|repeat split].
  by_prim_eqb u isUnlocked0.
Qed.

Lemma syncChain_spec (new : option prim) (this : Receiver) :
  let this' := syncChain new this in
  this_emitted this' = this_emitted this ++
    match new with
    | Some c => if prim_eqb c (this_chainId this) then []
                else [("chainChanged", [VPrim c]); ("chainIdChanged", [VPrim c])]
    | None => []
    end /\
  this_chainId this' = field_after new (this_chainId this) /\
  this_networkVersion this' = this_networkVersion this /\
  syncChain new this' = this'.
Proof.
  destruct new as [c|], this as [c0 n0 l]; cbn; [|rewrite app_nil_r; repeat split].
  by_prim_eqb c c0.
Qed.

Lemma syncNetwork_spec (new : option prim) (this : Receiver) :
  let this' := syncNetwork new this in
  this_emitted this' = this_emitted this ++
    match new with
    | Some n => if prim_eqb n (this_networkVersion this) then []
                else [("networkChanged", [VPrim n])]
    | None => []
    end /\
  this_chainId this' = this_chainId this /\
  this_networkVersion this' = field_after new (this_networkVersion this) /\
  syncNetwork new this' = this'.
Proof.
  destruct new as [n|], this as [c0 n0 l]; cbn; [|rewrite app_nil_r; repeat split].
  by_prim_eqb n n0.
Qed.

(** What the handler does to its receiver: the diff of the snapshot
    against the receiver's own two properties. *)
Lemma configHandler_receiver (snap : Snapshot) (this : Receiver) (s : State) :
  let this' := fst (configHandler snap this s) in
  this_emitted this'
    = this_emitted this
      ++ expected_config_events snap (this_chainId this) (this_networkVersion this) /\
  this_chainId this' = field_after (snap_chainId snap) (this_chainId this) /\
  this_networkVersion this'
    = field_after (snap_networkVersion snap) (this_networkVersion this).
Proof.
  unfold configHandler, expected_config_events. cbn [fst].
  destruct (syncChain_spec (snap_chainId snap) this) as (Hc1 & Hc2 & Hc3 & _).
  destruct (syncNetwork_spec (snap_networkVersion snap)
              (syncChain (snap_chainId snap) this)) as (Hn1 & Hn2 & Hn3 & _).
  cbv zeta in *.
  rewrite Hn1, Hn2, Hn3, Hc1, Hc2, Hc3, app_assoc. repeat split.
Qed.

(** What the handler does to the provider and the module's state does not
    depend on the receiver. *)
Lemma configHandler_provider (snap : Snapshot) (this : Receiver) (s : State) :
  snd (configHandler snap this s) = onConfig snap s.
Proof. reflexivity. Qed.

Lemma onConfig_emitted (snap : Snapshot) (s : State) :
  emitted (onConfig snap s) = emitted s.
Proof. apply syncUnlocked_spec. Qed.

Lemma onConfig_fields (snap : Snapshot) (s : State) :
  chainId (onConfig snap s) = chainId s /\
  networkVersion (onConfig snap s) = networkVersion s /\
  isUnlocked (onConfig snap s) = field_after (snap_isUnlocked snap) (isUnlocked s).
Proof.
  unfold onConfig.
  destruct (syncUnlocked_spec (snap_isUnlocked snap) s) as (_ & Hc & Hn & Hu & _).
  repeat split; assumption.
Qed.

Lemma new_events_same (s s' : State) : emitted s' = emitted s -> new_events s s' = [].
Proof. unfold new_events. intros ->. apply skipn_all. Qed.

Lemma expected_config_events_repeat (snap : Snapshot) (c n : prim) :
  expected_config_events snap (field_after (snap_chainId snap) c)
    (field_after (snap_networkVersion snap) n) = [].
Proof.
  unfold expected_config_events.
  destruct (snap_chainId snap), (snap_networkVersion snap); cbn;
    rewrite ?prim_eqb_refl; reflexivity.
Qed.

(** C1. A snapshot delivered on the config channel does not do to the
    provider what its handler is written to do.  The handler runs on the
    store, so the chain and network tests read and write the store's
    properties and the three events are emitted by the store: the store
    gets [chainChanged] then [chainIdChanged] with the new value when the
    snapshot's [chainId] differs from the store's, then [networkChanged]
    when its [networkVersion] differs, and holds the snapshot's values
    afterwards.  The provider emits no event, and its [chainId] and
    [networkVersion] are left as they were; only the lock status of the
    module's state follows the snapshot, silently.  Hence whenever the
    snapshot carries a [chainId] or a [networkVersion] that differs from
    the provider's, the events the provider emits are not the ones asked
    for. *)
Theorem config_snapshot_reaches_store (snap : Snapshot) (this : Receiver) (s : State) :
  let this' := fst (configHandler snap this s) in
  let s' := snd (configHandler snap this s) in
  s' = onConfig snap s /\
  new_events s s' = [] /\
  chainId s' = chainId s /\
  networkVersion s' = networkVersion s /\
  isUnlocked s' = field_after (snap_isUnlocked snap) (isUnlocked s) /\
  this_emitted this'
    = this_emitted this
      ++ expected_config_events snap (this_chainId this) (this_networkVersion this) /\
  this_chainId this' = field_after (snap_chainId snap) (this_chainId this) /\
  this_networkVersion this'
    = field_after (snap_networkVersion snap) (this_networkVersion this) /\
  (forall v,
     (snap_chainId snap = Some v /\ v <> chainId s) \/
     (snap_networkVersion snap = Some v /\ v <> networkVersion s) ->
     new_events s s' <> expected_config_events snap (chainId s) (networkVersion s)).
Proof.
  cbv zeta. rewrite configHandler_provider.
  destruct (onConfig_fields snap s) as (Hc & Hn & Hu).
  destruct (configHandler_receiver snap this s) as (Re & Rc & Rn).
  assert (He : new_events s (onConfig snap s) = [])
    by apply new_events_same, onConfig_emitted.
  repeat split; try assumption.
  intros v H. rewrite He. unfold expected_config_events.
  destruct H as [(E & D) | (E & D)]; rewrite E; apply prim_eqb_neq in D; rewrite D.
  - discriminate.
  - destruct (snap_chainId snap) as [c|]; [destruct (prim_eqb c (chainId s))|];
      discriminate.
Qed.

(** The first snapshot after construction, [{chainId: '0x1',
    networkVersion: '1'}]: the three events are the store's, the provider
    emits none and still has no chain id. *)
Lemma config_snapshot_reaches_store_witness :
  let snap := mkSnapshot None (Some (PStr "0x1")) (Some (PStr "1")) in
  let s := init 0 None in
  new_events s (onConfig snap s) = [] /\
  chainId (onConfig snap s) = PUndef /\
  this_emitted (fst (configHandler snap publicConfigStore s))
    = [("chainChanged", [str "0x1"]); ("chainIdChanged", [str "0x1"]);
       ("networkChanged", [str "1"])] /\
  new_events s (onConfig snap s)
    <> [("chainChanged", [str "0x1"]); ("chainIdChanged", [str "0x1"]);
        ("networkChanged", [str "1"])].
Proof.
  intros snap s.
  pose proof (config_snapshot_reaches_store snap publicConfigStore s) as H.
  cbv zeta in H.
  destruct H as (_ & He & Hc & _ & _ & Re & _ & _ & Hd).
  split; [|split; [|split]].
  - exact He.
  - exact Hc.
  - exact Re.
  - apply (Hd (PStr "0x1")). left. split; [reflexivity | discriminate].
Defined.

(** A snapshot whose fields are present and [undefined] matches what a
    new store holds, and nothing is emitted anywhere. *)
Example first_snapshot_undefined :
  let snap := mkSnapshot None (Some PUndef) (Some PUndef) in
  new_events (init 0 None) (onConfig snap (init 0 None)) = [] /\
  this_emitted (fst (configHandler snap publicConfigStore (init 0 None))) = [].
Proof. split; reflexivity. Qed.

(** C9. The same [{chainId, networkVersion}] snapshot delivered twice in
    succession.  On the handler's receiver, the store, the diff is
    idempotent: the second delivery emits nothing and leaves the two
    properties as the first left them, and when both values differ from the
    store's the first delivery emits [chainChanged] (with its alias) and
    [networkChanged].  On the provider neither delivery emits anything,
    whatever its [chainId] and [networkVersion]: over the two deliveries it
    counts no [chainChanged] and no [networkChanged], and the two fields
    are unchanged. *)
Theorem config_repeat_reaches_store (snap : Snapshot) (this : Receiver) (s : State) :
  let this1 := fst (configHandler snap this s) in
  let s1 := snd (configHandler snap this s) in
  let this2 := fst (configHandler snap this1 s1) in
  let s2 := snd (configHandler snap this1 s1) in
  this_emitted this2 = this_emitted this1 /\
  this_chainId this2 = this_chainId this1 /\
  this_networkVersion this2 = this_networkVersion this1 /\
  new_events s s1 = [] /\
  new_events s s2 = [] /\
  count_event "chainChanged" (new_events s s2) = 0 /\
  count_event "networkChanged" (new_events s s2) = 0 /\
  chainId s2 = chainId s /\ networkVersion s2 = networkVersion s /\
  forall c n,
    snap_chainId snap = Some c -> snap_networkVersion snap = Some n ->
    c <> this_chainId this -> n <> this_networkVersion this ->
    this_emitted this1
      = this_emitted this
        ++ [("chainChanged", [VPrim c]); ("chainIdChanged", [VPrim c]);
            ("networkChanged", [VPrim n])].
Proof.
  cbv zeta. rewrite !configHandler_provider.
  destruct (configHandler_receiver snap this s) as (Re & Rc & Rn).
  destruct (configHandler_receiver snap (fst (configHandler snap this s))
              (onConfig snap s)) as (Re2 & Rc2 & Rn2).
  cbv zeta in *.
  rewrite Rc, Rn, expected_config_events_repeat, app_nil_r in Re2.
  destruct (onConfig_fields snap s) as (Hc & Hn & _).
  destruct (onConfig_fields snap (onConfig snap s)) as (Hc2 & Hn2 & _).
  assert (He : emitted (onConfig snap (onConfig snap s)) = emitted s)
    by (rewrite !onConfig_emitted; reflexivity).
  assert (Hnone : new_events s (onConfig snap (onConfig snap s)) = [])
    by apply new_events_same, He.
  repeat split.
  - exact Re2.
  - rewrite Rc2, Rc. destruct (snap_chainId snap); reflexivity.
  - rewrite Rn2, Rn. destruct (snap_networkVersion snap); reflexivity.
  - apply new_events_same, onConfig_emitted.
  - exact Hnone.
  - rewrite Hnone. reflexivity.
  - rewrite Hnone. reflexivity.
  - rewrite Hc2. exact Hc.
  - rewrite Hn2. exact Hn.
  - intros c n Ec En Dc Dn. rewrite Re. unfold expected_config_events.
    rewrite Ec, En. apply prim_eqb_neq in Dc, Dn. rewrite Dc, Dn. reflexivity.
Qed.

Lemma config_repeat_reaches_store_witness :
  let snap := mkSnapshot None (Some (PStr "0x1")) (Some (PStr "1")) in
  let s := init 0 None in
  this_emitted (fst (configHandler snap publicConfigStore s))
    = [("chainChanged", [str "0x1"]); ("chainIdChanged", [str "0x1"]);
       ("networkChanged", [str "1"])] /\
  new_events s (onConfig snap (onConfig snap s)) = [].
Proof.
  intros snap s.
  pose proof (config_repeat_reaches_store snap publicConfigStore s) as H.
  cbv zeta in H.
  destruct H as (_ & _ & _ & _ & He & _ & _ & _ & _ & Hd).
  split.
  - apply (Hd (PStr "0x1") (PStr "1")).
    + reflexivity.
    + reflexivity.
    + discriminate.
    + discriminate.
  - exact He.
Defined.

(** ** State reconciler *)

Lemma dequal_arr (x y : list value) : dequal (VArr x) (VArr y) = dequal_list x y.
Proof.
  revert y. induction x as [|a x IH]; intros [|b y]; reflexivity.
Qed.

Lemma dequal_list_Forall2 (x y : list value) :
  dequal_list x y = true <->
  List.length x = List.length y /\ Forall2 (fun u v => dequal u v = true) x y.
Proof.
  revert y. induction x as [|a x IH]; intros [|b y]; cbn [dequal_list List.length].
  - split; auto.
  - split; [discriminate | intros [H _]; discriminate].
  - split; [discriminate | intros [H _]; discriminate].
  - rewrite andb_true_iff, IH. split.
    + intros (H & Hl & HF). split; [congruence | now constructor].
    + intros (Hl & HF). inversion HF; subst. repeat split; auto.
Qed.

Lemma handleAccounts_spec (a : value) (s : State) :
  let l := effective_accounts a in
  let s' := _handleAccountsChanged a s in
  console s' = console s ++
    (if isArray a then [] else [Log "error" nonArrayMsg [a]]) /\
  emitted s' = emitted s ++
    (if dequal_list (accounts s) l then [] else [("accountsChanged", [VArr l])]) /\
  accounts s' = (if dequal_list (accounts s) l then accounts s else l) /\
  selectedAddress s' =
    (if strict_eq (selectedAddress s) (first l) then selectedAddress s
     else or_else (first l) null).
Proof.
  cbv zeta. unfold _handleAccountsChanged. rewrite dequal_arr.
  set (l := effective_accounts a).
  assert (Hacc : accounts (if negb (isArray a)
                           then log (Log "error" nonArrayMsg [a]) s else s)
                 = accounts s) by (destruct (isArray a); reflexivity).
  rewrite Hacc.
  destruct (isArray a), (dequal_list (accounts s) l); cbn;
    destruct (strict_eq (selectedAddress s) (first l)); cbn;
    destruct (web3 s); cbn; rewrite ?app_nil_r, <- ?app_assoc; auto.
Qed.

(** C3. The reconciler never fails: it returns a state for every input.
    A non-array input is logged as an error and replaced by the empty
    list.  With [l] the list so obtained: when [l] is not deep-equal to the
    cached list, one [accountsChanged] event carrying [l] is emitted and
    the cache becomes [l]; when it is deep-equal, nothing is emitted and
    the cache is kept.  Deep equality of two lists is: same length and
    deep-equal elements, position by position. *)
Theorem accounts_reconciled (a : value) (s : State) :
  let l := effective_accounts a in
  let s' := _handleAccountsChanged a s in
  (isArray a = false ->
     l = [] /\ console s' = console s ++ [Log "error" nonArrayMsg [a]]) /\
  (isArray a = true -> a = VArr l /\ console s' = console s) /\
  (dequal (VArr (accounts s)) (VArr l) = false ->
     new_events s s' = [("accountsChanged", [VArr l])] /\ accounts s' = l) /\
  (dequal (VArr (accounts s)) (VArr l) = true ->
     new_events s s' = [] /\ accounts s' = accounts s) /\
  (dequal (VArr (accounts s)) (VArr l) = true <->
     List.length (accounts s) = List.length l /\
     Forall2 (fun u v => dequal u v = true) (accounts s) l).
Proof.
  cbv zeta.
  destruct (handleAccounts_spec a s) as (Hcon & Hev & Hacc & _). cbv zeta in *.
  rewrite dequal_arr.
  split; [|split; [|split; [|split]]].
  - intro Ha. rewrite Hcon, Ha. destruct a; try discriminate; auto.
  - intro Ha. rewrite Hcon, Ha, app_nil_r. destruct a; try discriminate; auto.
  - intro Hd. rewrite Hd in Hev, Hacc.
    split; [apply new_events_app; exact Hev | exact Hacc].
  - intro Hd. rewrite Hd in Hev, Hacc. split; [|exact Hacc].
    apply new_events_app. rewrite Hev. reflexivity.
  - apply dequal_list_Forall2.
Qed.

Lemma accounts_reconciled_witness :
  let s := _handleAccountsChanged (VArr [str "0xA"]) (init 0 None) in
  (new_events (init 0 None) s = [("accountsChanged", [VArr [str "0xA"]])] /\
   accounts s = [str "0xA"]) /\
  (new_events s (_handleAccountsChanged (VArr [str "0xA"]) s) = [] /\
   accounts (_handleAccountsChanged (VArr [str "0xA"]) s) = [str "0xA"]) /\
  (effective_accounts (str "0xA") = [] /\
   console (_handleAccountsChanged (str "0xA") s)
     = console s ++ [Log "error" nonArrayMsg [str "0xA"]]).
Proof.
  intro s. split; [|split].
  - apply (proj1 (proj2 (proj2 (accounts_reconciled (VArr [str "0xA"]) (init 0 None))))).
    reflexivity.
  - apply (proj1 (proj2 (proj2 (proj2 (accounts_reconciled (VArr [str "0xA"]) s))))).
    reflexivity.
  - apply (proj1 (accounts_reconciled (str "0xA") s)). reflexivity.
Defined.

(** Accounts dedup, as the spec's test has it. *)
Example accounts_dedup :
  let s1 := _handleAccountsChanged (VArr [str "0xA"]) (init 0 None) in
  let s2 := _handleAccountsChanged (VArr [str "0xA"]) s1 in
  let s3 := _handleAccountsChanged (VArr [str "0xB"]) s2 in
  count_event "accountsChanged" (emitted s2) = 1 /\
  count_event "accountsChanged" (emitted s3) = 2 /\
  selectedAddress (init 0 None) = null /\
  selectedAddress s2 = str "0xA" /\ selectedAddress s3 = str "0xB".
Proof. repeat split. Qed.

(** *** The selected address *)

Ltac split_matches :=
  repeat match goal with
         | |- context [match ?x with _ => _ end] => destruct x eqn:?; cbn
         end.

Lemma strict_eq_eq (a b : value) : strict_eq a b = true -> a = b.
Proof.
  destruct a, b; cbn; try discriminate.
  intro H. apply prim_eqb_eq in H. now subst.
Qed.

Lemma dequal_prim_eq (a b : value) :
  is_prim a = true -> dequal a b = true -> a = b.
Proof.
  destruct a; try discriminate. intros _. destruct b; cbn; try discriminate.
  intro H. apply prim_eqb_eq in H. now subst.
Qed.

Lemma dequal_list_prim_eq (x y : list value) :
  forallb is_prim x = true -> dequal_list x y = true -> x = y.
Proof.
  revert y. induction x as [|a x IH]; intros [|b y]; cbn [forallb dequal_list];
    try discriminate; auto.
  rewrite !andb_true_iff. intros [Ha Hx] [Hab Hxy].
  f_equal; [now apply dequal_prim_eq | now apply IH].
Qed.

Lemma effective_accounts_prim (a : value) :
  prim_input a = true -> forallb is_prim (effective_accounts a) = true.
Proof. destruct a; auto. Qed.

(** What the reconciler leaves, for lists of primitive values. *)
Lemma handleAccounts_prim (a : value) (s : State) :
  forallb is_prim (accounts s) = true ->
  accounts (_handleAccountsChanged a s) = effective_accounts a.
Proof.
  intros Hs.
  destruct (handleAccounts_spec a s) as (_ & _ & Hacc & _). cbv zeta in Hacc.
  rewrite Hacc. destruct (dequal_list _ _) eqn:E; [|reflexivity].
  now apply dequal_list_prim_eq.
Qed.

Lemma first_truthy (l : list value) :
  truthy (first l) = true -> hd_error l = Some (first l).
Proof. destruct l; [discriminate | reflexivity]. Qed.

Lemma handleAccounts_selected (a : value) (s : State) :
  selected_ok s ->
  selectedAddress (_handleAccountsChanged a s)
  = or_else (first (effective_accounts a)) null.
Proof.
  intros Hs.
  destruct (handleAccounts_spec a s) as (_ & _ & _ & Hsel). cbv zeta in Hsel.
  rewrite Hsel. destruct (strict_eq _ _) eqn:E; [|reflexivity].
  apply strict_eq_eq in E. rewrite <- E.
  destruct Hs as [-> | [Ht _]]; [reflexivity|].
  unfold or_else. now rewrite Ht.
Qed.

Lemma handleAccounts_ok (a : value) (s : State) :
  prim_input a = true ->
  forallb is_prim (accounts s) = true /\ selected_ok s ->
  forallb is_prim (accounts (_handleAccountsChanged a s)) = true /\
  selected_ok (_handleAccountsChanged a s).
Proof.
  intros Ha [Hp Hs]. unfold selected_ok.
  rewrite (handleAccounts_prim a s Hp), (handleAccounts_selected a s Hs).
  split; [now apply effective_accounts_prim|].
  unfold or_else. destruct (truthy (first _)) eqn:E; [right | now left].
  split; [assumption | now apply first_truthy].
Qed.

Ltac frame := cbn; split_matches; repeat split; reflexivity.

Lemma same_core_accounts (s s' : State) : same_core s s' -> same_accounts s s'.
Proof. intros (A & B & _). now split. Qed.

Lemma same_core_trans (s s1 s2 : State) :
  same_core s s1 -> same_core s1 s2 -> same_core s s2.
Proof.
  intros (A & B & C & D & E) (A' & B' & C' & D' & E').
  repeat split; congruence.
Qed.

Lemma same_core_refl (s : State) : same_core s s.
Proof. repeat split. Qed.

Lemma same_accounts_trans (s s1 s2 : State) :
  same_accounts s s1 -> same_accounts s1 s2 -> same_accounts s s2.
Proof. intros [A B] [C D]. split; congruence. Qed.

Lemma warn_once_same (name : string) (s : State) :
  same_core s (warn_once name s).
Proof. unfold same_core, warn_once. frame. Qed.

Lemma onConfig_same (snap : Snapshot) (s : State) :
  same_accounts s (onConfig snap s).
Proof.
  unfold same_accounts, onConfig, syncUnlocked. frame.
Qed.

Lemma handleDisconnect_same (n : string) (e : option string) (s : State) :
  same_accounts s (_handleDisconnect n e s).
Proof.
  unfold same_accounts, _handleDisconnect, logStreamDisconnectWarning,
    isConnected_truthy.
  frame.
Qed.

Lemma sendAsync_same (payload : value) (cb : callback) (s s' : State) :
  _sendAsync payload cb s = Some s' -> same_core s s'.
Proof.
  unfold _sendAsync. destruct (get payload "jsonrpc"); [|discriminate].
  pose proof (warn_once_same "signTypedData"
                (if negb (sentSiteMetadata s) then set_sentSiteMetadata true s else s))
    as (W1 & W2 & W3 & W4 & W5).
  destruct (negb (sentSiteMetadata s));
    repeat match goal with
           | |- (if ?c then _ else _) = _ -> _ => destruct c
           end;
    intro H; inversion H; subst; clear H; repeat split; cbn in *; congruence.
Qed.

Lemma request_same (payload : value) (s : State) :
  same_core s (snd (request payload s)).
Proof.
  unfold request.
  destruct (_sendAsync payload _ _) eqn:E; cbn.
  - apply sendAsync_same in E. exact E.
  - repeat split.
Qed.

Lemma ask_nil (payload : value) (s : State) :
  fst (fst (ask payload [] s)) = snd (request payload s).
Proof. unfold ask. destruct (request payload s) as [[e|pid] s1]; reflexivity. Qed.

Lemma sendAsync_object (o : list (string * value)) (cb : callback) (s : State) :
  exists s', _sendAsync (VObj o) cb s = Some s'.
Proof.
  unfold _sendAsync. cbn [get].
  destruct (_ && _); [eexists; reflexivity|].
  destruct (strict_eq _ _); eexists; reflexivity.
Qed.

Lemma request_object (o : list (string * value)) (s : State) :
  exists pid, fst (request (VObj o) s) = inr pid.
Proof.
  unfold request.
  destruct (sendAsync_object o (PromiseCb (nextPromise s))
              (set_nextPromise (S (nextPromise s)) s)) as [s' ->].
  eexists; reflexivity.
Qed.

(** The synchronous part of [_requestAccounts]: the first query is handed
    to the engine and the promise is pending. *)
Lemma requestAccounts_nil (s : State) :
  _requestAccounts [] s = (snd (request ethAccountsRequest s), None).
Proof.
  unfold _requestAccounts, ask.
  destruct (request_object [("method", str "eth_accounts")] s) as [pid H].
  unfold ethAccountsRequest.
  destruct (request (VObj [("method", str "eth_accounts")]) s) as [r s1].
  cbn in H. subst r. reflexivity.
Qed.

Lemma sendSync_same (payload : value) (s : State) :
  same_core s (snd (_sendSync payload s)).
Proof.
  unfold _sendSync. pose proof (warn_once_same "sendSync" s) as W.
  set (s1 := warn_once "sendSync" s) in *.
  destruct (strict_eq _ _); [exact W|].
  destruct (strict_eq _ _); [exact W|].
  destruct (strict_eq _ _).
  - unfold sendAsync. pose proof (warn_once_same "sendAsync" s1) as W1.
    destruct (_sendAsync payload NoopCb (warn_once "sendAsync" s1)) eqn:E; cbn.
    + apply sendAsync_same in E.
      eapply same_core_trans; [exact W|].
      eapply same_core_trans; [exact W1 | exact E].
    + eapply same_core_trans; [exact W | exact W1].
  - destruct (strict_eq _ _); exact W.
Qed.

Lemma send_payload_same (payload : value) (s : State) :
  same_core s (snd (send_payload payload s)).
Proof.
  unfold send_payload.
  destruct (malformed payload) as [[|]|]; try apply same_core_refl.
  destruct (strict_eq _ _).
  - rewrite requestAccounts_nil. apply request_same.
  - pose proof (request_same payload s) as R.
    destruct (request payload s) as [[e|pid] s1]; exact R.
Qed.

Lemma send_same (m params : value) (s : State) :
  same_core s (snd (send m params s)).
Proof.
  unfold send.
  destruct (negb _); [apply send_payload_same|].
  destruct (typeof_string m); [apply send_payload_same|].
  destruct (get m "method"); [|apply same_core_refl].
  destruct (includes _ _); [|apply send_payload_same].
  pose proof (sendSync_same m s) as R.
  destruct (_sendSync m s) as [[e|r] s1]; exact R.
Qed.

Lemma enable_same (s : State) : same_core s (fst (enable [] s)).
Proof.
  unfold enable. rewrite requestAccounts_nil. cbn [fst].
  eapply same_core_trans; [apply warn_once_same | apply request_same].
Qed.

Lemma same_accounts_ok (s s' : State) :
  same_accounts s s' ->
  forallb is_prim (accounts s) = true /\ selected_ok s ->
  forallb is_prim (accounts s') = true /\ selected_ok s'.
Proof.
  intros [A B] [Hp Hs]. unfold selected_ok. rewrite A, B. now split.
Qed.

Lemma or_else_prim (v : value) :
  prim_input v = true -> prim_input (or_else v (VArr [])) = true.
Proof. unfold or_else. destruct (truthy v); auto. Qed.

Lemma accountsCb_ok (err : value) (res res1 : Response) (s s1 : State) :
  prim_input (prop (res_result res)) = true ->
  forallb is_prim (accounts s) = true /\ selected_ok s ->
  accountsCb err res s = Some (res1, s1) ->
  prim_input (prop (res_result res1)) = true /\
  forallb is_prim (accounts s1) = true /\ selected_ok s1.
Proof.
  intros Hres Hs. unfold accountsCb.
  set (r := if truthy err then _ else _).
  assert (Hr : forall x, r = Some x -> prim_input (prop (res_result x)) = true).
  { subst r. intros x. split_matches; intro H; inversion H; subst; auto. }
  destruct r as [x|]; [|discriminate].
  intro H. inversion H; subst; clear H.
  specialize (Hr _ eq_refl). split; [assumption|].
  apply handleAccounts_ok; [now apply or_else_prim | assumption].
Qed.

Lemma invoke_ok (cb : callback) :
  forall (err : value) (res : Response) (s s' : State),
    prim_input (prop (res_result res)) = true ->
    forallb is_prim (accounts s) = true /\ selected_ok s ->
    invoke cb err res s = Some s' ->
    forallb is_prim (accounts s') = true /\ selected_ok s'.
Proof.
  induction cb as [pid|cid| |inner IH]; intros err res s s' Hres Hs; cbn [invoke].
  - intro H. inversion H; subst. exact Hs.
  - intro H. inversion H; subst. exact Hs.
  - intro H. inversion H; subst. exact Hs.
  - destruct (accountsCb err res s) as [[res1 s1]|] eqn:E; [|discriminate].
    destruct (accountsCb_ok _ _ _ _ _ Hres Hs E) as [H1 H2].
    now apply IH.
Qed.

Lemma step_ok (o : op) (s : State) :
  op_prim o = true ->
  forallb is_prim (accounts s) = true /\ selected_ok s ->
  forallb is_prim (accounts (step o s)) = true /\ selected_ok (step o s).
Proof.
  intros Ho Hs. destruct o; cbn [step op_prim] in *.
  - eapply same_accounts_ok; [apply onConfig_same | exact Hs].
  - unfold onNotification. destruct (get payload "method") as [m|]; [|exact Hs].
    destruct (strict_eq m _).
    + now apply handleAccounts_ok.
    + eapply same_accounts_ok; [|exact Hs]. unfold same_accounts. frame.
  - now apply handleAccounts_ok.
  - eapply same_accounts_ok; [apply handleDisconnect_same | exact Hs].
  - exact Hs.
  - unfold onReply. destruct (nth_error (handled s) i) as [[p cb]|]; [|exact Hs].
    destruct (invoke cb err res s) eqn:E; [|exact Hs].
    eapply invoke_ok; eauto.
  - eapply same_accounts_ok; [apply same_core_accounts, send_same | exact Hs].
  - destruct (sendAsync payload (UserCb cid) s) eqn:E.
    + unfold sendAsync in E. apply sendAsync_same in E.
      eapply same_accounts_ok; [|exact Hs]. apply same_core_accounts.
      eapply same_core_trans; [apply warn_once_same | exact E].
    + eapply same_accounts_ok; [apply same_core_accounts, warn_once_same | exact Hs].
  - eapply same_accounts_ok; [apply same_core_accounts, enable_same | exact Hs].
Qed.

Lemma run_ok (ops : list op) (s : State) :
  forallb op_prim ops = true ->
  forallb is_prim (accounts s) = true /\ selected_ok s ->
  forallb is_prim (accounts (run ops s)) = true /\ selected_ok (run ops s).
Proof.
  revert s. induction ops as [|o ops IH]; intros s Hops Hs; [exact Hs|].
  cbn in Hops. apply andb_true_iff in Hops as [Ho Hops].
  cbn [run fold_left]. apply IH; [assumption|]. now apply step_ok.
Qed.

Lemma init_ok (listeners : nat) (w : option value) :
  forallb is_prim (accounts (init listeners w)) = true /\
  selected_ok (init listeners w).
Proof. split; [reflexivity | now left]. Qed.

(** C4, as the spec states the recomputation: the first element of the new
    list, or [null] if the list is empty.  On the list holding the empty
    string the reconciler leaves [null], not that first element. *)
Lemma selectedAddress_falsy_first :
  selectedAddress (_handleAccountsChanged (VArr [str ""]) (init 0 None))
  <> spec_selectedAddress [str ""].
Proof. cbn. discriminate. Qed.

(** C4, amended.  In every state reached from the constructed provider by
    operations whose account lists hold primitive values, [selectedAddress]
    is [null] or equal to the first element of the cached accounts list.
    From such a state the reconciler, on any input, leaves
    [selectedAddress] equal to the first element of the new list when that
    element is truthy and [null] otherwise (empty list, or a falsy first
    element); it assigns the field only when the cached value is not
    strictly equal to that first element. *)
Theorem selectedAddress_invariant
    (ops : list op) (listeners : nat) (w : option value) :
  forallb op_prim ops = true ->
  let s := run ops (init listeners w) in
  (selectedAddress s = null \/
   hd_error (accounts s) = Some (selectedAddress s)) /\
  forall a : value,
    let l := effective_accounts a in
    let s' := _handleAccountsChanged a s in
    selectedAddress s' = or_else (first l) null /\
    (strict_eq (selectedAddress s) (first l) = true ->
     selectedAddress s' = selectedAddress s) /\
    (prim_input a = true ->
     selectedAddress s' = null \/
     hd_error (accounts s') = Some (selectedAddress s')).
Proof.
  intros Hops s.
  destruct (run_ok ops (init listeners w) Hops (init_ok listeners w)) as [Hp Hs].
  fold s in Hp, Hs. split.
  - destruct Hs as [H | [_ H]]; [now left | now right].
  - intros a l s'. split; [|split].
    + now apply handleAccounts_selected.
    + intro E. destruct (handleAccounts_spec a s) as (_ & _ & _ & Hsel).
      cbv zeta in Hsel. fold l in Hsel. subst s'. rewrite Hsel, E. reflexivity.
    + intro Ha.
      destruct (handleAccounts_ok a s Ha (conj Hp Hs)) as [_ [H | [_ H]]];
        [now left | now right].
Qed.

Lemma selectedAddress_invariant_witness :
  let s := run [OpAccounts (VArr [str "0xA"]); OpConfig (mkSnapshot None None None);
                OpAccounts (VArr [str "0xB"; str "0xA"])] (init 0 None) in
  selectedAddress s = null \/ hd_error (accounts s) = Some (selectedAddress s).
Proof.
  exact (proj1 (selectedAddress_invariant
                  [OpAccounts (VArr [str "0xA"]); OpConfig (mkSnapshot None None None);
                   OpAccounts (VArr [str "0xB"; str "0xA"])] 0 None eq_refl)).
Defined.

(** ** Connection lifecycle *)

Lemma count_event_app (name : string) (l m : list event) :
  count_event name (l ++ m) = count_event name l + count_event name m.
Proof. unfold count_event, events_named. now rewrite filter_app, length_app. Qed.

Lemma no_close_refl (s : State) : no_close s s.
Proof. split; [reflexivity|]. exists []. now rewrite app_nil_r. Qed.

Lemma no_close_trans (s s1 s2 : State) :
  no_close s s1 -> no_close s1 s2 -> no_close s s2.
Proof.
  intros (A & l & B & C) (A' & l' & B' & C'). split; [congruence|].
  exists (l ++ l'). rewrite B', B, app_assoc, count_event_app, C, C'. now split.
Qed.

Lemma same_core_no_close (s s' : State) : same_core s s' -> no_close s s'.
Proof.
  intros (_ & _ & C & D & _). split; [assumption|].
  exists []. now rewrite app_nil_r.
Qed.

Lemma onConfig_no_close (snap : Snapshot) (s : State) :
  no_close s (onConfig snap s).
Proof.
  split.
  - unfold onConfig, syncUnlocked. cbn.
    split_matches; reflexivity.
  - exists []. split; [rewrite app_nil_r; apply onConfig_emitted | reflexivity].
Qed.

Lemma handleAccounts_no_close (a : value) (s : State) :
  no_close s (_handleAccountsChanged a s).
Proof.
  split.
  - unfold _handleAccountsChanged. cbn. split_matches; reflexivity.
  - destruct (handleAccounts_spec a s) as (_ & Hev & _). cbv zeta in Hev.
    eexists; split; [exact Hev|]. destruct (dequal_list _ _); reflexivity.
Qed.

Lemma set_delivered_no_close (d : list (callback * (value * Response)))
    (s : State) : no_close s (set_delivered d s).
Proof. split; [reflexivity|]. exists []. cbn. now rewrite app_nil_r. Qed.

Lemma invoke_no_close (cb : callback) :
  forall (err : value) (res : Response) (s s' : State),
    invoke cb err res s = Some s' -> no_close s s'.
Proof.
  induction cb as [pid|cid| |inner IH]; intros err res s s'; cbn [invoke].
  - intro H. inversion H; subst. apply set_delivered_no_close.
  - intro H. inversion H; subst. apply set_delivered_no_close.
  - intro H. inversion H; subst. apply no_close_refl.
  - destruct (accountsCb err res s) as [[res1 s1]|] eqn:E; [|discriminate].
    intro H. apply IH in H. eapply no_close_trans; [|exact H].
    unfold accountsCb in E. destruct (if truthy err then _ else _); [|discriminate].
    inversion E; subst. apply handleAccounts_no_close.
Qed.

Lemma onNotification_no_close (payload : value) (s : State) :
  no_close s (onNotification payload s).
Proof.
  unfold onNotification. destruct (get payload "method") as [m|];
    [|apply no_close_refl].
  destruct (strict_eq m _); [apply handleAccounts_no_close|].
  split; [cbn; split_matches; reflexivity|].
  destruct (strict_eq m _); [destruct (get _ "result")|]; cbn;
    rewrite <- ?app_assoc; eexists; split; reflexivity.
Qed.

(** Every operation other than a disconnect and the connect announcement
    keeps the flag and emits no [close]. *)
Lemma step_no_close (o : op) (s : State) :
  is_connect o = false -> is_disconnect o = false -> no_close s (step o s).
Proof.
  destruct o; cbn [is_connect is_disconnect step]; try discriminate; intros _ _.
  - apply onConfig_no_close.
  - apply onNotification_no_close.
  - apply handleAccounts_no_close.
  - unfold onReply. destruct (nth_error _ _) as [[p cb]|]; [|apply no_close_refl].
    destruct (invoke cb err res s) eqn:E; [|apply no_close_refl].
    eapply invoke_no_close; eauto.
  - apply same_core_no_close, send_same.
  - destruct (sendAsync payload (UserCb cid) s) eqn:E.
    + unfold sendAsync in E. apply sendAsync_same in E.
      apply same_core_no_close.
      eapply same_core_trans; [apply warn_once_same | exact E].
    + apply same_core_no_close, warn_once_same.
  - apply same_core_no_close, enable_same.
Qed.

Lemma logStreamDisconnectWarning_spec (n : string) (e : option string) (s : State) :
  let s' := logStreamDisconnectWarning n e s in
  isConnected s' = isConnected s /\ delivered s' = delivered s /\
  exists l, emitted s' = emitted s ++ l /\
            events_named "close" l = [].
Proof.
  cbv zeta. unfold logStreamDisconnectWarning.
  destruct (Nat.ltb 0 _); cbn; repeat split.
  - eexists; split; reflexivity.
  - exists []. now rewrite app_nil_r.
Qed.

(** One disconnect signal: [close] is emitted exactly when the flag is set,
    with the reason code and message, and the flag is cleared. *)
Lemma handleDisconnect_spec (n : string) (e : option string) (s : State) :
  let s' := _handleDisconnect n e s in
  isConnected s' = Some false /\
  exists l, emitted s' = emitted s ++ l /\
    events_named "close" l
    = (if isConnected_truthy s then [("close", [closeEvent])] else []).
Proof.
  cbv zeta. split; [reflexivity|].
  destruct (logStreamDisconnectWarning_spec n e s) as (Hc & _ & l & Hl & Hf).
  cbv zeta in *. unfold _handleDisconnect, isConnected_truthy. rewrite Hc.
  destruct (isConnected s) as [[|]|]; cbn [emitted emit set_isConnected set_emitted];
    rewrite Hl.
  - exists (l ++ [("close", [closeEvent])]). rewrite app_assoc. split; [reflexivity|].
    unfold events_named in *. rewrite filter_app, Hf. reflexivity.
  - exists l. now split.
  - exists l. now split.
Qed.

Lemma step_budget (o : op) (s : State) :
  is_connect o = false ->
  exists l, emitted (step o s) = emitted s ++ l /\
            count_event "close" l + close_budget (step o s) = close_budget s.
Proof.
  intro Hc. destruct (is_disconnect o) eqn:Hd.
  - destruct o; try discriminate. cbn [step].
    destruct (handleDisconnect_spec streamName err s) as (Hf & l & Hl & Hn).
    cbv zeta in *. exists l. split; [assumption|].
    unfold count_event, close_budget, isConnected_truthy at 1.
    rewrite Hn, Hf. destruct (isConnected_truthy s); reflexivity.
  - destruct (step_no_close o s Hc Hd) as (Hf & l & Hl & Hn).
    exists l. split; [assumption|].
    unfold close_budget, isConnected_truthy. rewrite Hn, Hf. reflexivity.
Qed.

Lemma run_budget (ops : list op) :
  forall s : State,
    forallb (fun o => negb (is_connect o)) ops = true ->
    exists l, emitted (run ops s) = emitted s ++ l /\
              count_event "close" l + close_budget (run ops s) = close_budget s.
Proof.
  induction ops as [|o ops IH]; intros s Hops.
  - exists []. cbn. now rewrite app_nil_r.
  - cbn in Hops. apply andb_true_iff in Hops as [Ho Hops].
    apply negb_true_iff in Ho.
    destruct (step_budget o s Ho) as (l1 & H1 & B1).
    destruct (IH (step o s) Hops) as (l2 & H2 & B2).
    exists (l1 ++ l2). cbn [run fold_left]. fold (run ops (step o s)).
    rewrite H2, H1, app_assoc, count_event_app. split; [reflexivity | lia].
Qed.

(** C6. A disconnect signal emits [close] exactly when the connected flag
    is set, with the reason code 1011 and the message, and clears the flag.
    Over any run of operations with no connect announcement in it, at most
    one [close] is emitted, and none when the flag was not set at the start
    (as after a first disconnect signal). *)
Theorem close_at_most_once (s : State) :
  (forall (n : string) (e : option string),
     let s' := _handleDisconnect n e s in
     events_named "close" (new_events s s')
       = (if isConnected_truthy s
          then [("close", [VObj [("code", num 1011);
                  ("reason", str "MetaMask background communication error.")]])]
          else []) /\
     isConnected s' = Some false) /\
  (forall ops : list op,
     forallb (fun o => negb (is_connect o)) ops = true ->
     count_event "close" (new_events s (run ops s)) <= 1 /\
     (isConnected_truthy s = false ->
      count_event "close" (new_events s (run ops s)) = 0)).
Proof.
  split.
  - intros n e. cbv zeta.
    destruct (handleDisconnect_spec n e s) as (Hf & l & Hl & Hn). cbv zeta in *.
    rewrite (new_events_app _ _ _ Hl). split; assumption.
  - intros ops Hops. destruct (run_budget ops s Hops) as (l & Hl & B).
    rewrite (new_events_app _ _ _ Hl). unfold close_budget in B at 2. split.
    + destruct (isConnected_truthy s); lia.
    + intros E. rewrite E in B. lia.
Qed.

Lemma close_at_most_once_witness :
  let s := run [OpConnect] (init 0 None) in
  let ops := [OpDisconnect "MetaMask RpcProvider" None;
              OpDisconnect "MetaMask" (Some "Error: premature close")] in
  count_event "close" (new_events s (run ops s)) <= 1 /\
  count_event "close"
    (new_events (_handleDisconnect "MetaMask" None s)
       (run ops (_handleDisconnect "MetaMask" None s))) = 0.
Proof.
  intros s ops. split.
  - exact (proj1 (proj2 (close_at_most_once s) ops eq_refl)).
  - exact (proj2 (proj2 (close_at_most_once (_handleDisconnect "MetaMask" None s))
                    ops eq_refl) eq_refl).
Defined.

Example close_once :
  events_named "close"
    (emitted (run [OpConnect; OpDisconnect "MetaMask RpcProvider" None;
                   OpDisconnect "MetaMask" None] (init 0 None)))
  = [("close", [closeEvent])].
Proof. reflexivity. Qed.

(** ** Pending requests and disconnects *)

Lemma find_app_first {A} (f : A -> bool) (l m : list A) :
  find f (l ++ m) = match find f l with Some x => Some x | None => find f m end.
Proof. induction l as [|a l IH]; cbn; [reflexivity|]. destruct (f a); auto. Qed.

(** C5, as stated: a request is sent, then the RPC channel errors before
    any response.  The promise of the request is still pending: nothing
    rejected it. *)
Lemma disconnect_leaves_pending :
  let s := run [OpConnect; OpSend (str "eth_blockNumber") undefined]
             (init 0 None) in
  let s' := _handleDisconnect "MetaMask RpcProvider"
              (Some "Error: premature close") s in
  awaiting 0 s /\ awaiting 0 s' /\
  ~ exists e, settled 0 s' = Some (Rejected e).
Proof.
  cbv zeta. repeat split.
  - eexists. cbn. left. reflexivity.
  - eexists. cbn. left. reflexivity.
  - intros [e H]. discriminate H.
Qed.

(** C5, amended.  A disconnect signal touches no request: the requests
    handed to the engine and the callbacks already invoked are as before,
    so a promise that was pending stays pending and none is rejected by the
    signal.  A pending promise is settled when the engine invokes its
    callback, by [rpcPromiseCallback] on what the engine passes. *)
Theorem disconnect_settles_nothing
    (n : string) (e : option string) (s : State) :
  let s' := _handleDisconnect n e s in
  handled s' = handled s /\ delivered s' = delivered s /\
  (forall pid, settled pid s' = settled pid s) /\
  (forall pid, awaiting pid s -> awaiting pid s') /\
  (forall pid i payload err res,
     nth_error (handled s') i = Some (payload, PromiseCb pid) ->
     settled pid s' = None ->
     settled pid (onReply i err res s') = Some (rpcPromiseCallback err res)).
Proof.
  cbv zeta.
  assert (Hh : handled (_handleDisconnect n e s) = handled s).
  { unfold _handleDisconnect, logStreamDisconnectWarning. cbn.
    split_matches; reflexivity. }
  assert (Hd : delivered (_handleDisconnect n e s) = delivered s).
  { unfold _handleDisconnect, logStreamDisconnectWarning. cbn.
    split_matches; reflexivity. }
  assert (Hs : forall pid, settled pid (_handleDisconnect n e s) = settled pid s).
  { intro pid. unfold settled. now rewrite Hd. }
  repeat split; auto.
  - destruct H as [[p Hp] _]. exists p. now rewrite Hh.
  - rewrite Hs. apply H.
  - intros pid i payload err res Hn Hp. unfold onReply. rewrite Hn.
    cbn [invoke]. unfold settled in *. cbn [delivered set_delivered].
    rewrite find_app_first.
    destruct (find _ (delivered (_handleDisconnect n e s))) as [[c [x y]]|];
      [discriminate|].
    cbn. rewrite Nat.eqb_refl. reflexivity.
Qed.

Lemma disconnect_settles_nothing_witness :
  let s := run [OpConnect; OpSend (str "eth_blockNumber") undefined]
             (init 0 None) in
  let s' := _handleDisconnect "MetaMask RpcProvider" None s in
  awaiting 0 s' /\
  settled 0 (onReply 0 null (mkResponse (Some (str "0x10")) None) s')
  = Some (Resolved (str "0x10")).
Proof.
  intros s s'.
  pose proof (disconnect_settles_nothing "MetaMask RpcProvider" None s) as H.
  cbv zeta in H. destruct H as (_ & _ & _ & Hw & Hr). split.
  - apply Hw. split; [eexists; left; reflexivity | reflexivity].
  - exact (Hr 0 0 _ null (mkResponse (Some (str "0x10")) None) eq_refl eq_refl).
Defined.

(** ** Request dispatch *)

Lemma warn_once_handled (name : string) (s : State) :
  handled (warn_once name s) = handled s.
Proof. unfold warn_once. destruct (warned name s); reflexivity. Qed.

(** What [_sendAsync] hands to the engine. *)
Lemma sendAsync_handled (o : list (string * value)) (cb : callback) (s : State) :
  exists s' cb',
    _sendAsync (VObj o) cb s = Some s' /\
    handled s' = handled s ++
      [((if truthy (prop (lookup "jsonrpc" o)) then VObj o
         else VObj (set_field "jsonrpc" (str "2.0") o)), cb')] /\
    (cb' = cb \/ cb' = AccountsCb cb).
Proof.
  unfold _sendAsync. cbn [get]. fold (prop (lookup "jsonrpc" o)).
  destruct (truthy (prop (lookup "jsonrpc" o))); cbn [negb set_prop];
    (destruct (_ && _); [|destruct (strict_eq _ _)]);
    eexists; eexists; (split; [reflexivity|]);
    destruct (sentSiteMetadata s); cbn; rewrite ?warn_once_handled; cbn; auto.
Qed.

Lemma request_handled (o : list (string * value)) (s : State) :
  exists s' cb',
    request (VObj o) s = (inr (nextPromise s), s') /\
    handled s' = handled s ++
      [((if truthy (prop (lookup "jsonrpc" o)) then VObj o
         else VObj (set_field "jsonrpc" (str "2.0") o)), cb')] /\
    (cb' = PromiseCb (nextPromise s) \/ cb' = AccountsCb (PromiseCb (nextPromise s))).
Proof.
  unfold request.
  destruct (sendAsync_handled o (PromiseCb (nextPromise s))
              (set_nextPromise (S (nextPromise s)) s)) as (s' & cb' & E & H & C).
  rewrite E. exists s', cb'. repeat split; assumption.
Qed.

(** A malformed payload that is neither [null] nor [undefined] is refused
    with the invalid-params error, and nothing else happens. *)
Lemma send_payload_malformed (payload : value) (s : State) :
  malformed_payload payload ->
  payload <> null -> payload <> undefined ->
  send_payload payload s = (Threw (InvalidParams payload), s).
Proof.
  intros H Hn Hu. unfold send_payload, malformed.
  destruct payload as [[| |b|z|x]|l|o]; try reflexivity;
    try (exfalso; apply Hn; reflexivity); try (exfalso; apply Hu; reflexivity).
  destruct H as [H | [H | H]]; try discriminate.
  unfold method_of in H. cbn [get] in *. now rewrite H.
Qed.

Lemma includes_string (l : list string) (v : value) :
  includes l v = true -> typeof_string v = true.
Proof.
  unfold includes. induction l as [|k l IH]; cbn; [discriminate|].
  destruct v as [[| | | |x]| |]; cbn; auto.
Qed.

(** [send(payload)] with a payload that is not a method name. *)
Lemma send_malformed (payload : value) (s : State) :
  typeof_string payload = false ->
  malformed_payload payload ->
  payload <> null -> payload <> undefined ->
  send payload undefined s = (Threw (InvalidParams payload), s).
Proof.
  intros Hs H Hn Hu. unfold send. cbn [strict_eq undefined prim_eqb negb].
  rewrite Hs.
  destruct (get payload "method") as [m|] eqn:Hm.
    + destruct (includes syncMethods m) eqn:Hi;
        [|now apply send_payload_malformed].
      apply includes_string in Hi.
      destruct payload as [[| |b|z|x]|l|o]; cbn in Hm; inversion Hm; subst;
        try discriminate.
      destruct H as [H | [H | H]]; try discriminate.
      unfold method_of in H. cbn [get] in H. congruence.
    + destruct payload as [[| |b|z|x]|l|o]; try discriminate;
        [exfalso; apply Hu; reflexivity | exfalso; apply Hn; reflexivity].
Qed.

(** With [params] supplied, a method that is not a string is refused. *)
Lemma send_method_not_string (m params : value) (s : State) :
  strict_eq params undefined = false -> typeof_string m = false ->
  send m params s
  = (Threw (InvalidParams (VObj [("method", m); ("params", wrap_params params)])), s).
Proof.
  intros Hp Hm. unfold send. rewrite Hp. cbn [negb].
  unfold send_payload, malformed. cbn. rewrite Hm. reflexivity.
Qed.

(** C7, at the payload [null]: it is not an object, so the payload is
    malformed; [send] fails synchronously and hands nothing to the engine,
    but the error is the TypeError of reading [payload.method], not the
    invalid-params error. *)
Theorem send_null_type_error (s : State) :
  malformed_payload null /\
  send null undefined s = (Threw TypeError, s) /\
  send null undefined s <> (Threw (InvalidParams null), s).
Proof.
  split; [right; left; reflexivity|]. split; [reflexivity | discriminate].
Qed.

(** C10, as stated: [send('eth_requestAccounts', 5)].  The wrapped payload
    is dropped; the one request that goes out is the [eth_accounts] query
    of the composite flow, which carries no parameters at all. *)
Lemma send_requestAccounts_no_params :
  let s' := snd (send (str "eth_requestAccounts") (num 5) (init 0 None)) in
  handled s'
  = [(VObj [("method", str "eth_accounts"); ("jsonrpc", str "2.0")],
      AccountsCb (PromiseCb 0))] /\
  forall payload cb, In (payload, cb) (handled s') ->
    get payload "params" = Some undefined /\
    isArray (prop (get payload "params")) = false.
Proof.
  cbv zeta. split; [reflexivity|].
  intros payload cb [H | []]. inversion H; subst. split; reflexivity.
Qed.

(** C10, amended.  With a method name and a [params] that is defined and
    not an array, the payload [send] constructs carries the single-element
    array [[params]].  For every method but [eth_requestAccounts] that
    payload, completed with the protocol version, is the one request handed
    to the engine.  For [eth_requestAccounts] the payload is not sent: the
    request handed to the engine is the parameterless [eth_accounts] query
    of the composite flow. *)
Theorem send_wraps_params (name : string) (params : value) (s : State) :
  strict_eq params undefined = false -> isArray params = false ->
  wrap_params params = VArr [params] /\
  (name <> "eth_requestAccounts" ->
   exists cb s',
     send (str name) params s = (Promise (nextPromise s), s') /\
     handled s' = handled s ++
       [(VObj [("method", str name); ("params", VArr [params]);
               ("jsonrpc", str "2.0")], cb)]) /\
  (name = "eth_requestAccounts" ->
   exists cb s',
     send (str name) params s = (AccountsPromise, s') /\
     handled s' = handled s ++
       [(VObj [("method", str "eth_accounts"); ("jsonrpc", str "2.0")], cb)]).
Proof.
  intros Hp Ha.
  assert (Hw : wrap_params params = VArr [params])
    by (unfold wrap_params; now rewrite Ha).
  split; [exact Hw|].
  unfold send. rewrite Hp, Hw. cbn [negb].
  assert (Hg : get (VObj [("method", str name); ("params", VArr [params])]) "method"
               = Some (str name)) by reflexivity.
  unfold send_payload, malformed, method_of. rewrite Hg.
  cbn [isArray typeof_object typeof_string negb str strict_eq prim_eqb]. split.
  - intro Hn. apply String.eqb_neq in Hn. rewrite Hn.
    destruct (request_handled
                [("method", str name); ("params", VArr [params])] s)
      as (s' & cb' & E & H & _).
    rewrite E. exists cb', s'. split; [reflexivity | exact H].
  - intros ->. rewrite String.eqb_refl, requestAccounts_nil.
    unfold ethAccountsRequest. cbn [fst snd].
    destruct (request_handled [("method", str "eth_accounts")] s)
      as (s' & cb' & E & H & _).
    rewrite E. exists cb', s'. split; [reflexivity | exact H].
Qed.

Lemma send_wraps_params_witness :
  exists cb s',
    send (str "eth_getBalance") (str "0xA") (init 0 None) = (Promise 0, s') /\
    handled s'
    = [(VObj [("method", str "eth_getBalance"); ("params", VArr [str "0xA"]);
              ("jsonrpc", str "2.0")], cb)].
Proof.
  apply (proj1 (proj2 (send_wraps_params "eth_getBalance" (str "0xA") (init 0 None)
                         eq_refl eq_refl))).
  discriminate.
Defined.

(** ** The legacy [eth_accounts] normalisation *)

Lemma dequal_list_nil (l : list value) :
  dequal_list l [] = match l with [] => true | _ :: _ => false end.
Proof. destruct l; reflexivity. Qed.

Lemma handleAccounts_frame (a : value) (s : State) :
  handled (_handleAccountsChanged a s) = handled s /\
  delivered (_handleAccountsChanged a s) = delivered s /\
  nextPromise (_handleAccountsChanged a s) = nextPromise s.
Proof.
  unfold _handleAccountsChanged. cbn. split_matches; repeat split.
Qed.

(** The reconciler on the empty list. *)
Lemma handleAccounts_empty (s : State) :
  emitted (_handleAccountsChanged (VArr []) s)
    = emitted s ++ cleared_accounts_events s /\
  accounts (_handleAccountsChanged (VArr []) s) = [].
Proof.
  destruct (handleAccounts_spec (VArr []) s) as (_ & Hev & Hacc & _).
  cbv zeta in *. cbn [effective_accounts] in *.
  rewrite dequal_list_nil in Hev, Hacc. unfold cleared_accounts_events.
  destruct (accounts s); auto.
Qed.

Lemma settled_deliver (pid : nat) (err : value) (res : Response) (s : State) :
  find (fun d => callback_eqb (PromiseCb pid) (fst d)) (delivered s) = None ->
  settled pid (set_delivered (delivered s ++ [(PromiseCb pid, (err, res))]) s)
  = Some (rpcPromiseCallback err res).
Proof.
  intro Hf. unfold settled.
  replace (delivered (set_delivered (delivered s ++ [(PromiseCb pid, (err, res))]) s))
    with (delivered s ++ [(PromiseCb pid, (err, res))]) by reflexivity.
  rewrite find_app_first, Hf. unfold find, callback_eqb, fst.
  rewrite Nat.eqb_refl. reflexivity.
Qed.

(** The middleware, on an unauthorized error for [eth_accounts]: the error
    is cleared and the empty list substituted. *)
Lemma errorMiddleware_unauthorized (e : value) (r : option value) :
  truthy e = true -> get e "code" = Some (num 4100) ->
  fst (createErrorMiddleware (str "eth_accounts") (mkResponse r (Some e)))
  = mkResponse (Some (VArr [])) None.
Proof.
  intros Ht Hc. unfold createErrorMiddleware. cbn [prop res_error].
  rewrite Ht, Hc. reflexivity.
Qed.

(** When the engine reports no error to the callback and passes the
    response as the middleware left it, the promise resolves to the empty
    list. *)
Lemma accounts_unauthorized_cleared (e : value) (r : option value)
    (pid : nat) (s : State) :
  truthy e = true -> get e "code" = Some (num 4100) ->
  find (fun d => callback_eqb (PromiseCb pid) (fst d)) (delivered s) = None ->
  exists s',
    invoke (AccountsCb (PromiseCb pid)) null
      (fst (createErrorMiddleware (str "eth_accounts") (mkResponse r (Some e)))) s
    = Some s' /\
    settled pid s' = Some (Resolved (VArr [])) /\
    new_events s s' = cleared_accounts_events s.
Proof.
  intros Ht Hc Hf. rewrite (errorMiddleware_unauthorized e r Ht Hc).
  cbn [invoke accountsCb truthy null truthy_prim prop res_result or_else].
  eexists. split; [reflexivity|].
  destruct (handleAccounts_frame (VArr []) s) as (_ & Hd & _).
  destruct (handleAccounts_empty s) as (Hev & _). split.
  - rewrite settled_deliver; [reflexivity | rewrite Hd; exact Hf].
  - apply new_events_app. exact Hev.
Qed.

(** C2, where the engine passes the error to the callback: the legacy
    callback clears the response and the cached accounts, with one
    [accountsChanged] carrying the empty list when the cache was
    non-empty, and then passes the same error on to the callback of the
    promise, which rejects with it. *)
Theorem accounts_unauthorized_rejects (e : value) (res : Response)
    (pid : nat) (s : State) :
  truthy e = true -> get e "code" = Some (num 4100) ->
  find (fun d => callback_eqb (PromiseCb pid) (fst d)) (delivered s) = None ->
  exists s',
    invoke (AccountsCb (PromiseCb pid)) e res s = Some s' /\
    settled pid s' = Some (Rejected e) /\
    new_events s s' = cleared_accounts_events s /\
    accounts s' = [].
Proof.
  intros Ht Hc Hf. cbn [invoke]. unfold accountsCb. rewrite Ht, Hc.
  cbn -[_handleAccountsChanged set_delivered delivered].
  eexists. split; [reflexivity|].
  destruct (handleAccounts_frame (VArr []) s) as (_ & Hd & _).
  destruct (handleAccounts_empty s) as (Hev & Hacc). repeat split.
  - rewrite settled_deliver; [|rewrite Hd; exact Hf].
    unfold rpcPromiseCallback, or_else. rewrite Ht, Ht. reflexivity.
  - apply new_events_app. exact Hev.
  - exact Hacc.
Qed.

Lemma accounts_unauthorized_rejects_witness :
  let e := VObj [("code", num 4100); ("message", str "Unauthorized")] in
  let s := run [OpAccounts (VArr [str "0xA"]); OpSend (str "eth_accounts") undefined]
             (init 0 None) in
  exists s',
    invoke (AccountsCb (PromiseCb 0)) e (mkResponse None (Some e)) s = Some s' /\
    settled 0 s' = Some (Rejected e) /\
    new_events s s' = cleared_accounts_events s /\
    accounts s' = [].
Proof.
  intros e s.
  exact (accounts_unauthorized_rejects e (mkResponse None (Some e)) 0 s
           eq_refl eq_refl eq_refl).
Defined.

(** The same, end to end: the cache holds one account, [eth_accounts] is
    sent, and the engine answers the request with the unauthorized error. *)
Example eth_accounts_unauthorized_run :
  let e := VObj [("code", num 4100); ("message", str "Unauthorized")] in
  let s := run [OpAccounts (VArr [str "0xA"]);
                OpSend (str "eth_accounts") undefined;
                OpReply 0 e (mkResponse None (Some e))] (init 0 None) in
  settled 0 s = Some (Rejected e) /\
  events_named "accountsChanged" (emitted s)
  = [("accountsChanged", [VArr [str "0xA"]]); ("accountsChanged", [VArr []])] /\
  accounts s = [] /\ selectedAddress s = null.
Proof. cbv zeta. repeat split. Qed.

(** ** The composite request-accounts flow *)

Lemma method_of_set_jsonrpc (o : list (string * value)) (x : value) :
  method_of (VObj (set_field "jsonrpc" x o)) = method_of (VObj o).
Proof.
  unfold method_of. cbn [get]. f_equal.
  induction o as [|[k v] o IH]; [reflexivity|].
  cbn [set_field lookup].
  destruct (String.eqb "jsonrpc" k) eqn:E.
  - apply String.eqb_eq in E. subst k. reflexivity.
  - cbn [lookup]. destruct (String.eqb "method" k); [reflexivity | exact IH].
Qed.

Lemma strict_eq_str_excl (m : value) (a b : string) :
  a <> b -> strict_eq m (str a) = true -> strict_eq m (str b) = false.
Proof.
  intros Hab H. apply strict_eq_eq in H. subst m. cbn.
  now apply String.eqb_neq.
Qed.

(** [_sendAsync] on an object payload, in full. *)
Lemma sendAsync_spec (o : list (string * value)) (cb : callback) (s : State) :
  exists s',
    _sendAsync (VObj o) cb s = Some s' /\
    handled s' = handled s ++
      [((if truthy (prop (lookup "jsonrpc" o)) then VObj o
         else VObj (set_field "jsonrpc" (str "2.0") o)),
        (if strict_eq (method_of (VObj o)) (str "eth_accounts")
         then AccountsCb cb else cb))] /\
    delivered s' = delivered s /\ nextPromise s' = nextPromise s.
Proof.
  destruct (sendAsync_handled o cb s) as (s' & cb' & E & H & _).
  exists s'. split; [exact E|].
  pose proof (sendAsync_same _ _ _ _ E) as (_ & _ & _ & _ & Hd).
  revert E H. unfold _sendAsync. cbn [get]. fold (prop (lookup "jsonrpc" o)).
  set (p := if negb (truthy (prop (lookup "jsonrpc" o)))
            then set_prop (VObj o) "jsonrpc" (str "2.0") else VObj o).
  assert (Hm : method_of p = method_of (VObj o)).
  { subst p. destruct (truthy _); cbn [negb set_prop];
      [reflexivity | apply method_of_set_jsonrpc]. }
  rewrite Hm.
  destruct (strict_eq (method_of (VObj o)) (str "eth_signTypedData")) eqn:E1.
  - rewrite (strict_eq_str_excl _ "eth_signTypedData" "eth_accounts"
               ltac:(apply String.eqb_neq; reflexivity) E1).
    cbn [andb].
    destruct (negb (warned "signTypedData" _)); intros E H; inversion E; subst;
      clear E; cbn; rewrite ?warn_once_handled;
      destruct (sentSiteMetadata s), (truthy (prop (lookup "jsonrpc" o)));
      cbn; auto;
      unfold warn_once; destruct (warned _ _); cbn; auto.
  - cbn [andb].
    destruct (strict_eq (method_of (VObj o)) (str "eth_accounts"));
      intros E H; inversion E; subst; clear E; cbn;
      destruct (sentSiteMetadata s), (truthy (prop (lookup "jsonrpc" o)));
      cbn; auto.
Qed.

Lemma nth_error_snoc {A} (l : list A) (x : A) :
  nth_error (l ++ [x]) (List.length l) = Some x.
Proof. induction l; cbn; auto. Qed.

Lemma fresh_deliver (pid : nat) (d : value * Response) (s s' : State) :
  fresh s -> nextPromise s = pid -> nextPromise s' = S pid ->
  delivered s' = delivered s ++ [(PromiseCb pid, d)] ->
  fresh s'.
Proof.
  intros Hf Hp Hn Hd p Hle. rewrite Hd, find_app_first, Hf by lia.
  cbn. destruct (Nat.eqb_spec p pid); [lia | reflexivity].
Qed.

(** One request answered with success: its promise resolves with the
    result, and the request is the one thing handed to the engine. *)
Lemma ask_success (o : list (string * value)) (v : value) (rs : replies)
    (s : State) :
  fresh s ->
  exists s2,
    ask (VObj o) (success v :: rs) s = (s2, Some (Resolved v), rs) /\
    handled s2 = handled s ++
      [((if truthy (prop (lookup "jsonrpc" o)) then VObj o
         else VObj (set_field "jsonrpc" (str "2.0") o)),
        (if strict_eq (method_of (VObj o)) (str "eth_accounts")
         then AccountsCb (PromiseCb (nextPromise s))
         else PromiseCb (nextPromise s)))] /\
    nextPromise s2 = S (nextPromise s) /\
    fresh s2.
Proof.
  intros Hf. unfold ask, request, success.
  destruct (sendAsync_spec o (PromiseCb (nextPromise s))
              (set_nextPromise (S (nextPromise s)) s)) as (s1 & E & Hh & Hd & Hn).
  rewrite E. unfold onReply.
  change (handled (set_nextPromise (S (nextPromise s)) s)) with (handled s) in Hh.
  change (delivered (set_nextPromise (S (nextPromise s)) s)) with (delivered s) in Hd.
  change (nextPromise (set_nextPromise (S (nextPromise s)) s))
    with (S (nextPromise s)) in Hn.
  rewrite Hh, nth_error_snoc.
  set (res := mkResponse (Some v) None).
  assert (Hr : rpcPromiseCallback null res = Resolved v) by reflexivity.
  destruct (strict_eq (method_of (VObj o)) (str "eth_accounts")).
  - cbn [invoke]. unfold accountsCb.
    cbn [truthy null truthy_prim].
    set (X := _handleAccountsChanged _ s1).
    destruct (handleAccounts_frame (or_else (prop (res_result res)) (VArr [])) s1)
      as (Xh & Xd & Xn). fold X in Xh, Xd, Xn.
    assert (Hfind : find (fun d => callback_eqb (PromiseCb (nextPromise s)) (fst d))
                      (delivered X) = None)
      by (rewrite Xd, Hd; apply Hf; lia).
    eexists. split; [|split; [|split]].
    + rewrite (settled_deliver _ null res X Hfind), Hr. reflexivity.
    + change (handled (set_delivered ?d X)) with (handled X).
      rewrite Xh. exact Hh.
    + change (nextPromise (set_delivered ?d X)) with (nextPromise X). congruence.
    + apply (fresh_deliver (nextPromise s) (null, res) s); auto.
      * change (nextPromise (set_delivered ?d X)) with (nextPromise X). congruence.
      * change (delivered (set_delivered ?d X)) with d. congruence.
  - cbn [invoke].
    assert (Hfind : find (fun d => callback_eqb (PromiseCb (nextPromise s)) (fst d))
                      (delivered s1) = None)
      by (rewrite Hd; apply Hf; lia).
    eexists. split; [|split; [|split]].
    + rewrite (settled_deliver _ null res s1 Hfind), Hr. reflexivity.
    + exact Hh.
    + exact Hn.
    + apply (fresh_deliver (nextPromise s) (null, res) s); auto.
      change (delivered (set_delivered ?d s1)) with d. congruence.
Qed.

(** The composite flow from any state in which no callback was invoked
    for a promise not yet made. *)
Lemma requestAccounts_flow_fresh (s : State) :
  fresh s ->
  (forall (v : value) (rs : replies),
     nonEmptyArray v = true ->
     exists s',
       _requestAccounts (success v :: rs) s = (s', Some (Resolved v)) /\
       handled s' = handled s ++
         [(ethAccountsSent, AccountsCb (PromiseCb (nextPromise s)))]) /\
  (forall (v1 v2 v3 : value) (rs : replies),
     nonEmptyArray v1 = false ->
     exists s',
       _requestAccounts (success v1 :: success v2 :: success v3 :: rs) s
       = (s', Some (Resolved v3)) /\
       handled s' = handled s ++
         [(ethAccountsSent, AccountsCb (PromiseCb (nextPromise s)));
          (requestPermissionsSent, PromiseCb (S (nextPromise s)));
          (ethAccountsSent, AccountsCb (PromiseCb (S (S (nextPromise s)))))]) /\
  send (str "eth_requestAccounts") undefined s
    = (AccountsPromise, fst (_requestAccounts [] s)) /\
  (forall rs, enable rs s = _requestAccounts rs (warn_once "enable" s)).
Proof.
  intro Hf. split; [|split; [|split]].
  - intros v rs Hv.
    destruct (ask_success [("method", str "eth_accounts")] v rs s Hf)
      as (s1 & E1 & H1 & _).
    unfold _requestAccounts, ethAccountsRequest. rewrite E1, Hv. cbn [negb].
    exists s1. split; [reflexivity | exact H1].
  - intros v1 v2 v3 rs Hv.
    destruct (ask_success [("method", str "eth_accounts")] v1
                (success v2 :: success v3 :: rs) s Hf)
      as (s1 & E1 & H1 & N1 & F1).
    destruct (ask_success
                [("method", str "wallet_requestPermissions");
                 ("params", VArr [VObj [("eth_accounts", VObj [])]])] v2
                (success v3 :: rs) s1 F1)
      as (s2 & E2 & H2 & N2 & F2).
    destruct (ask_success [("method", str "eth_accounts")] v3 rs s2 F2)
      as (s3 & E3 & H3 & _).
    unfold _requestAccounts, ethAccountsRequest, requestPermissionsRequest.
    rewrite E1, Hv. cbn [negb]. rewrite E2, E3.
    exists s3. split; [reflexivity|].
    rewrite H3, H2, H1, N2, N1, <- !app_assoc. reflexivity.
  - reflexivity.
  - reflexivity.
Qed.

Lemma fresh_init (listeners : nat) (w : option value) : fresh (init listeners w).
Proof. intros pid _. reflexivity. Qed.

(** ** Promises in reachable states *)

Lemma extends_refl (s : State) : extends s s.
Proof. repeat split; auto. Qed.

Lemma extends_trans (s s1 s2 : State) :
  extends s s1 -> extends s1 s2 -> extends s s2.
Proof.
  intros (D1 & N1 & H1) (D2 & N2 & H2). repeat split; [congruence | lia |].
  intros p cb pid Hin Hl. destruct (H2 p cb pid Hin Hl) as [Hin1 | Hlt]; auto.
  destruct (H1 p cb pid Hin1 Hl) as [Hin0 | Hlt]; auto. right; lia.
Qed.

Lemma extends_ok (s s' : State) :
  extends s s' -> fresh s /\ bounded s -> fresh s' /\ bounded s'.
Proof.
  intros (D & N & H) [Hf Hb]. split.
  - intros pid Hle. rewrite D. apply Hf. lia.
  - intros p cb pid Hin Hl. destruct (H p cb pid Hin Hl) as [Hin0 | Hlt]; auto.
    specialize (Hb p cb pid Hin0 Hl). lia.
Qed.

(** A step that leaves requests, answers and promises alone. *)
Lemma same_requests_extends (s s' : State) :
  handled s' = handled s -> delivered s' = delivered s ->
  nextPromise s' = nextPromise s -> extends s s'.
Proof.
  intros Hh Hd Hn. repeat split; [assumption | lia |].
  intros p cb pid Hin _. left. now rewrite <- Hh.
Qed.

Lemma warn_once_extends (name : string) (s : State) :
  extends s (warn_once name s).
Proof.
  apply same_requests_extends; unfold warn_once; destruct (warned name s);
    reflexivity.
Qed.

Lemma sendAsync_extends (payload : value) (cb : callback) (s s' : State) :
  (forall pid, leaf_pid cb = Some pid -> pid < nextPromise s) ->
  _sendAsync payload cb s = Some s' -> extends s s'.
Proof.
  intros Hcb. unfold _sendAsync. destruct (get payload "jsonrpc"); [|discriminate].
  set (p := if negb (truthy v) then _ else _).
  set (s0 := if negb (sentSiteMetadata s) then _ else _).
  assert (H0 : handled s0 = handled s /\ delivered s0 = delivered s /\
               nextPromise s0 = nextPromise s)
    by (subst s0; destruct (negb (sentSiteMetadata s)); repeat split).
  destruct H0 as (Hh & Hd & Hn).
  assert (Hw : handled (warn_once "signTypedData" s0) = handled s /\
               delivered (warn_once "signTypedData" s0) = delivered s /\
               nextPromise (warn_once "signTypedData" s0) = nextPromise s)
    by (unfold warn_once; destruct (warned _ s0); cbn; repeat split; assumption).
  destruct Hw as (Wh & Wd & Wn).
  assert (Hnew : forall c x, (c = cb \/ c = AccountsCb cb) ->
            handled x = handled s -> delivered x = delivered s ->
            nextPromise x = nextPromise s -> extends s (handle p c x)).
  { intros c x Hc Xh Xd Xn. repeat split.
    - exact Xd.
    - change (nextPromise (handle p c x)) with (nextPromise x). lia.
    - intros q cq pid Hin Hl.
      change (handled (handle p c x)) with (handled x ++ [(p, c)]) in Hin.
      change (nextPromise (handle p c x)) with (nextPromise x).
      rewrite Xh in Hin. apply in_app_or in Hin as [Hin | [Hin | []]];
        [now left|].
      inversion Hin; subst q cq. right. rewrite Xn. apply Hcb.
      destruct Hc as [-> | ->]; exact Hl. }
  destruct (_ && _); [|destruct (strict_eq _ _)];
    intro E; inversion E; subst s'; apply Hnew; auto.
Qed.

Lemma request_extends (payload : value) (s : State) :
  extends s (snd (request payload s)).
Proof.
  unfold request.
  assert (Hs : extends s (set_nextPromise (S (nextPromise s)) s)).
  { repeat split; [cbn; lia|]. intros p cb pid Hin _. now left. }
  destruct (_sendAsync payload _ _) eqn:E; cbn [snd]; [|exact Hs].
  eapply extends_trans; [exact Hs|].
  eapply sendAsync_extends; [|exact E].
  intros pid H. inversion H; subst. cbn. lia.
Qed.

Lemma sendSync_extends (payload : value) (s : State) :
  extends s (snd (_sendSync payload s)).
Proof.
  unfold _sendSync. pose proof (warn_once_extends "sendSync" s) as W.
  set (s1 := warn_once "sendSync" s) in *.
  destruct (strict_eq _ _); [exact W|].
  destruct (strict_eq _ _); [exact W|].
  destruct (strict_eq _ _).
  - unfold sendAsync. pose proof (warn_once_extends "sendAsync" s1) as W1.
    destruct (_sendAsync payload NoopCb (warn_once "sendAsync" s1)) eqn:E; cbn [snd].
    + eapply extends_trans; [exact W|]. eapply extends_trans; [exact W1|].
      eapply sendAsync_extends; [|exact E]. discriminate.
    + eapply extends_trans; [exact W | exact W1].
  - destruct (strict_eq _ _); exact W.
Qed.

Lemma send_extends (m params : value) (s : State) :
  extends s (snd (send m params s)).
Proof.
  assert (Hp : forall payload, extends s (snd (send_payload payload s))).
  { intro payload. unfold send_payload.
    destruct (malformed payload) as [[|]|]; try apply extends_refl.
    destruct (strict_eq _ _).
    - rewrite requestAccounts_nil. apply request_extends.
    - pose proof (request_extends payload s) as R.
      destruct (request payload s) as [[e|pid] s1]; exact R. }
  unfold send.
  destruct (negb _); [apply Hp|].
  destruct (typeof_string m); [apply Hp|].
  destruct (get m "method"); [|apply extends_refl].
  destruct (includes _ _); [|apply Hp].
  pose proof (sendSync_extends m s) as R.
  destruct (_sendSync m s) as [[e|r] s1]; exact R.
Qed.

Lemma deliver_ok (cb : callback) (d : value * Response) (s : State) :
  (forall pid, cb = PromiseCb pid -> pid < nextPromise s) ->
  fresh s /\ bounded s ->
  fresh (set_delivered (delivered s ++ [(cb, d)]) s) /\
  bounded (set_delivered (delivered s ++ [(cb, d)]) s).
Proof.
  intros Hcb [Hf Hb]. split.
  - intros p Hle.
    change (delivered (set_delivered ?x s)) with x.
    change (nextPromise (set_delivered ?x s)) with (nextPromise s) in Hle.
    rewrite find_app_first, Hf by exact Hle. cbn.
    destruct cb as [pid| | |]; cbn; try reflexivity.
    specialize (Hcb pid eq_refl).
    destruct (Nat.eqb_spec p pid); [lia | reflexivity].
  - exact Hb.
Qed.

Lemma invoke_fresh (cb : callback) :
  forall (err : value) (res : Response) (s s' : State),
    (forall pid, leaf_pid cb = Some pid -> pid < nextPromise s) ->
    fresh s /\ bounded s ->
    invoke cb err res s = Some s' ->
    fresh s' /\ bounded s'.
Proof.
  induction cb as [pid|cid| |inner IH]; intros err res s s' Hcb Hs; cbn [invoke].
  - intro H. inversion H; subst. apply deliver_ok; [|exact Hs].
    intros p E. apply Hcb. inversion E; reflexivity.
  - intro H. inversion H; subst. apply deliver_ok; [discriminate | exact Hs].
  - intro H. inversion H; subst. exact Hs.
  - destruct (accountsCb err res s) as [[res1 s1]|] eqn:E; [|discriminate].
    unfold accountsCb in E. destruct (if truthy err then _ else _); [|discriminate].
    inversion E; subst res1 s1; clear E.
    set (a := or_else _ _).
    destruct (handleAccounts_frame a s) as (Xh & Xd & Xn).
    apply IH.
    + intros pid Hl. rewrite Xn. now apply Hcb.
    + eapply extends_ok; [|exact Hs]. now apply same_requests_extends.
Qed.

Lemma step_fresh (o : op) (s : State) :
  fresh s /\ bounded s -> fresh (step o s) /\ bounded (step o s).
Proof.
  intros Hs. destruct o; cbn [step].
  - eapply extends_ok; [|exact Hs]. apply same_requests_extends;
      unfold onConfig, syncUnlocked; cbn;
      split_matches; reflexivity.
  - eapply extends_ok; [|exact Hs]. unfold onNotification.
    destruct (get payload "method") as [m|]; [|apply extends_refl].
    destruct (strict_eq m _).
    + destruct (handleAccounts_frame (prop (get payload "result")) s) as (A & B & C).
      now apply same_requests_extends.
    + apply same_requests_extends; cbn; split_matches; reflexivity.
  - eapply extends_ok; [|exact Hs].
    destruct (handleAccounts_frame a s) as (A & B & C).
    now apply same_requests_extends.
  - eapply extends_ok; [|exact Hs]. apply same_requests_extends;
      unfold _handleDisconnect, logStreamDisconnectWarning; cbn;
      split_matches; reflexivity.
  - eapply extends_ok; [|exact Hs]. now apply same_requests_extends.
  - unfold onReply. destruct (nth_error (handled s) i) as [[p cb]|] eqn:E;
      [|exact Hs].
    destruct (invoke cb err res s) eqn:Ei; [|exact Hs].
    eapply invoke_fresh; [|exact Hs|exact Ei].
    intros pid Hl. apply nth_error_In in E. destruct Hs as [_ Hb].
    exact (Hb p cb pid E Hl).
  - eapply extends_ok; [apply send_extends | exact Hs].
  - eapply extends_ok; [|exact Hs].
    destruct (sendAsync payload (UserCb cid) s) eqn:E;
      [|apply warn_once_extends].
    unfold sendAsync in E.
    eapply extends_trans; [apply warn_once_extends|].
    eapply sendAsync_extends; [|exact E]. discriminate.
  - eapply extends_ok; [|exact Hs]. unfold enable.
    rewrite requestAccounts_nil. cbn [fst].
    eapply extends_trans; [apply warn_once_extends | apply request_extends].
Qed.

(** In every state reached from the constructed provider, no callback has
    been invoked for a promise not yet made. *)
Lemma fresh_reachable (ops : list op) (listeners : nat) (w : option value) :
  fresh (run ops (init listeners w)).
Proof.
  assert (H : forall s, fresh s /\ bounded s ->
                        fresh (run ops s) /\ bounded (run ops s)).
  { induction ops as [|o ops IH]; intros s Hs; [exact Hs|].
    cbn [run fold_left]. apply IH. now apply step_fresh. }
  apply H. split; [apply fresh_init | intros p cb pid []].
Qed.

(** C8. The composite request-accounts operation, run in any state
    reached from the constructed provider, against an engine that answers
    its requests with success.  It first queries [eth_accounts];
    when the result is a non-empty array it resolves with that result,
    having sent nothing else.  Otherwise it sends
    [wallet_requestPermissions] for [eth_accounts], then queries
    [eth_accounts] again, and resolves with the result of that second
    query.  [send('eth_requestAccounts')] and [enable()] both run this
    operation. *)
Theorem requestAccounts_flow
    (ops : list op) (listeners : nat) (w : option value) :
  let s := run ops (init listeners w) in
  (forall (v : value) (rs : replies),
     nonEmptyArray v = true ->
     exists s',
       _requestAccounts (success v :: rs) s = (s', Some (Resolved v)) /\
       handled s' = handled s ++
         [(ethAccountsSent, AccountsCb (PromiseCb (nextPromise s)))]) /\
  (forall (v1 v2 v3 : value) (rs : replies),
     nonEmptyArray v1 = false ->
     exists s',
       _requestAccounts (success v1 :: success v2 :: success v3 :: rs) s
       = (s', Some (Resolved v3)) /\
       handled s' = handled s ++
         [(ethAccountsSent, AccountsCb (PromiseCb (nextPromise s)));
          (requestPermissionsSent, PromiseCb (S (nextPromise s)));
          (ethAccountsSent, AccountsCb (PromiseCb (S (S (nextPromise s)))))]) /\
  send (str "eth_requestAccounts") undefined s
    = (AccountsPromise, fst (_requestAccounts [] s)) /\
  (forall rs, enable rs s = _requestAccounts rs (warn_once "enable" s)).
Proof.
  intro s. apply requestAccounts_flow_fresh. apply fresh_reachable.
Qed.

Lemma requestAccounts_flow_witness :
  let s := run [OpConnect] (init 0 None) in
  (exists s',
     _requestAccounts [success (VArr [str "0xA"])] s
     = (s', Some (Resolved (VArr [str "0xA"]))) /\
     handled s' = handled s ++
       [(ethAccountsSent, AccountsCb (PromiseCb (nextPromise s)))]) /\
  (exists s',
     _requestAccounts [success (VArr []); success (VArr [VObj []]);
                       success (VArr [str "0xA"])] s
     = (s', Some (Resolved (VArr [str "0xA"]))) /\
     handled s' = handled s ++
       [(ethAccountsSent, AccountsCb (PromiseCb (nextPromise s)));
        (requestPermissionsSent, PromiseCb (S (nextPromise s)));
        (ethAccountsSent, AccountsCb (PromiseCb (S (S (nextPromise s)))))]).
Proof.
  intro s.
  pose proof (requestAccounts_flow [OpConnect] 0 None) as (A & B & _).
  split.
  - exact (A (VArr [str "0xA"]) [] eq_refl).
  - exact (B (VArr []) (VArr [VObj []]) (VArr [str "0xA"]) [] eq_refl).
Defined.

(** The flow as the spec's sequence, on concrete answers: no account at
    first, the permission granted, then one account. *)
Example requestAccounts_run :
  let '(s, o) := _requestAccounts
                   [success (VArr []); success (VArr [VObj []]);
                    success (VArr [str "0xA"])] (init 0 None) in
  o = Some (Resolved (VArr [str "0xA"])) /\
  map fst (handled s)
  = [ethAccountsSent; requestPermissionsSent; ethAccountsSent] /\
  emitted s = [("accountsChanged", [VArr [str "0xA"]])] /\
  selectedAddress s = str "0xA".
Proof. cbv. repeat split. Qed.

(** ** Deprecation warnings *)

Lemma count_warning_app (name : string) (l m : list logentry) :
  count_warning name (l ++ m) = count_warning name l + count_warning name m.
Proof. unfold count_warning. now rewrite filter_app, length_app. Qed.

Lemma no_warning_refl (s : State) : no_warning s s.
Proof. split; [reflexivity|]. exists []. split; [now rewrite app_nil_r | reflexivity]. Qed.

Lemma no_warning_trans (s s1 s2 : State) :
  no_warning s s1 -> no_warning s1 s2 -> no_warning s s2.
Proof.
  intros (A & l & B & C) (A' & l' & B' & C'). split; [congruence|].
  exists (l ++ l'). split; [now rewrite B', B, app_assoc|].
  intro name. now rewrite count_warning_app, C, C'.
Qed.

Lemma no_warning_once (s s' : State) :
  no_warning s s' -> warnings_once s -> warnings_once s'.
Proof.
  intros (A & l & B & C) W name. destruct (W name) as [W1 W2].
  unfold warned in *. rewrite A, B, count_warning_app, C, Nat.add_0_r.
  now split.
Qed.

Lemma key_eqb (a b : string) :
  String.eqb ("messages.warnings." ++ a) ("messages.warnings." ++ b)
  = String.eqb a b.
Proof. reflexivity. Qed.

Lemma warn_once_once (name : string) (s : State) :
  warnings_once s -> warnings_once (warn_once name s).
Proof.
  intros W. unfold warn_once. destruct (warned name s) eqn:E; [exact W|].
  intro n. destruct (W n) as [W1 W2].
  change (console (set_sentWarnings ?x (log ?e s))) with (console s ++ [e]).
  unfold warned in *.
  change (sentWarnings (set_sentWarnings ?x (log ?e s))) with x.
  rewrite count_warning_app. cbn [existsb].
  unfold count_warning at 2 4. cbn [filter is_warning]. rewrite key_eqb.
  cbn [String.eqb Ascii.eqb Bool.eqb andb].
  rewrite (String.eqb_sym name n).
  destruct (String.eqb n name) eqn:En; cbn [orb List.length].
  - apply String.eqb_eq in En. subst n. rewrite (W2 E). split; [lia | discriminate].
  - split; [lia|]. intro H. rewrite (W2 H). reflexivity.
Qed.

Lemma same_console_no_warning (s s' : State) :
  console s' = console s -> sentWarnings s' = sentWarnings s -> no_warning s s'.
Proof.
  intros Hc Hw. split; [assumption|]. exists [].
  split; [now rewrite app_nil_r | reflexivity].
Qed.

Lemma onConfig_no_warning (snap : Snapshot) (s : State) :
  no_warning s (onConfig snap s).
Proof.
  apply same_console_no_warning;
    unfold onConfig, syncUnlocked; cbn;
    split_matches; reflexivity.
Qed.

Lemma handleAccounts_no_warning (a : value) (s : State) :
  no_warning s (_handleAccountsChanged a s).
Proof.
  split.
  - unfold _handleAccountsChanged. cbn. split_matches; reflexivity.
  - destruct (handleAccounts_spec a s) as (Hc & _). cbv zeta in Hc.
    eexists. split; [exact Hc|]. intro name. destruct (isArray a); reflexivity.
Qed.

Lemma disconnectWarning_no_warning (n : string) (e : option string) (s : State) :
  no_warning s (logStreamDisconnectWarning n e s).
Proof.
  unfold logStreamDisconnectWarning. split.
  - destruct (Nat.ltb 0 _); reflexivity.
  - eexists. split.
    + destruct (Nat.ltb 0 _); reflexivity.
    + intro name. destruct e; reflexivity.
Qed.

Lemma handleDisconnect_no_warning (n : string) (e : option string) (s : State) :
  no_warning s (_handleDisconnect n e s).
Proof.
  eapply no_warning_trans; [apply (disconnectWarning_no_warning n e)|].
  unfold _handleDisconnect. apply same_console_no_warning;
    destruct (isConnected_truthy _); reflexivity.
Qed.

Lemma invoke_no_warning (cb : callback) :
  forall (err : value) (res : Response) (s s' : State),
    invoke cb err res s = Some s' -> no_warning s s'.
Proof.
  induction cb as [pid|cid| |inner IH]; intros err res s s'; cbn [invoke].
  - intro H. inversion H; subst. now apply same_console_no_warning.
  - intro H. inversion H; subst. now apply same_console_no_warning.
  - intro H. inversion H; subst. apply no_warning_refl.
  - destruct (accountsCb err res s) as [[res1 s1]|] eqn:E; [|discriminate].
    intro H. apply IH in H. eapply no_warning_trans; [|exact H].
    unfold accountsCb in E. destruct (if truthy err then _ else _); [|discriminate].
    inversion E; subst. apply handleAccounts_no_warning.
Qed.

Lemma onNotification_no_warning (payload : value) (s : State) :
  no_warning s (onNotification payload s).
Proof.
  unfold onNotification. destruct (get payload "method") as [m|];
    [|apply no_warning_refl].
  destruct (strict_eq m _); [apply handleAccounts_no_warning|].
  apply same_console_no_warning; cbn; split_matches; reflexivity.
Qed.

Lemma sendAsync_once (payload : value) (cb : callback) (s s' : State) :
  _sendAsync payload cb s = Some s' -> warnings_once s -> warnings_once s'.
Proof.
  unfold _sendAsync. destruct (get payload "jsonrpc"); [|discriminate].
  set (p := if negb (truthy v) then _ else _).
  set (s0 := if negb (sentSiteMetadata s) then _ else _).
  intros E W.
  assert (W0 : warnings_once s0).
  { eapply no_warning_once; [|exact W]. subst s0.
    destruct (negb (sentSiteMetadata s));
      [now apply same_console_no_warning | apply no_warning_refl]. }
  assert (Hh : forall c x, warnings_once x -> warnings_once (handle p c x)).
  { intros c x Wx. eapply no_warning_once; [|exact Wx].
    now apply same_console_no_warning. }
  destruct (_ && _); [|destruct (strict_eq _ _)]; inversion E; subst s';
    apply Hh; auto. now apply warn_once_once.
Qed.

Lemma request_once (payload : value) (s : State) :
  warnings_once s -> warnings_once (snd (request payload s)).
Proof.
  intro W. unfold request.
  assert (W1 : warnings_once (set_nextPromise (S (nextPromise s)) s)).
  { eapply no_warning_once; [|exact W]. now apply same_console_no_warning. }
  destruct (_sendAsync payload _ _) eqn:E; cbn [snd]; [|exact W1].
  eapply sendAsync_once; eauto.
Qed.

Lemma sendSync_once (payload : value) (s : State) :
  warnings_once s -> warnings_once (snd (_sendSync payload s)).
Proof.
  intro W. unfold _sendSync.
  pose proof (warn_once_once "sendSync" s W) as W1.
  set (s1 := warn_once "sendSync" s) in *.
  destruct (strict_eq _ _); [exact W1|].
  destruct (strict_eq _ _); [exact W1|].
  destruct (strict_eq _ _).
  - unfold sendAsync. pose proof (warn_once_once "sendAsync" s1 W1) as W2.
    destruct (_sendAsync payload NoopCb (warn_once "sendAsync" s1)) eqn:E;
      cbn [snd]; [|exact W2].
    eapply sendAsync_once; eauto.
  - destruct (strict_eq _ _); exact W1.
Qed.

Lemma send_once (m params : value) (s : State) :
  warnings_once s -> warnings_once (snd (send m params s)).
Proof.
  intro W.
  assert (Hp : forall payload, warnings_once (snd (send_payload payload s))).
  { intro payload. unfold send_payload.
    destruct (malformed payload) as [[|]|]; try exact W.
    destruct (strict_eq _ _).
    - rewrite requestAccounts_nil. now apply request_once.
    - pose proof (request_once payload s W) as R.
      destruct (request payload s) as [[e|pid] s1]; exact R. }
  unfold send.
  destruct (negb _); [apply Hp|].
  destruct (typeof_string m); [apply Hp|].
  destruct (get m "method"); [|exact W].
  destruct (includes _ _); [|apply Hp].
  pose proof (sendSync_once m s W) as R.
  destruct (_sendSync m s) as [[e|r] s1]; exact R.
Qed.

Lemma step_once (o : op) (s : State) :
  warnings_once s -> warnings_once (step o s).
Proof.
  intro W. destruct o; cbn [step].
  - eapply no_warning_once; [apply onConfig_no_warning | exact W].
  - eapply no_warning_once; [apply onNotification_no_warning | exact W].
  - eapply no_warning_once; [apply handleAccounts_no_warning | exact W].
  - eapply no_warning_once; [apply handleDisconnect_no_warning | exact W].
  - eapply no_warning_once; [|exact W]. now apply same_console_no_warning.
  - unfold onReply. destruct (nth_error _ _) as [[p cb]|]; [|exact W].
    destruct (invoke cb err res s) eqn:E; [|exact W].
    eapply no_warning_once; [eapply invoke_no_warning; eauto | exact W].
  - now apply send_once.
  - pose proof (warn_once_once "sendAsync" s W) as W1.
    destruct (sendAsync payload (UserCb cid) s) eqn:E; [|exact W1].
    unfold sendAsync in E. eapply sendAsync_once; eauto.
  - unfold enable. rewrite requestAccounts_nil. cbn [fst].
    apply request_once. now apply warn_once_once.
Qed.

(** The synchronous part of [authorize]: nothing, or the permissions
    request. *)
Lemma authorize_nil (r : value) (s : State) :
  fst (authorize r [] s) = s \/
  exists o, r = VObj o /\
            fst (authorize r [] s) = snd (request (permissionsRequest r) s).
Proof.
  destruct r as [[| | | |]|l|o]; cbn [authorize fst]; auto.
  destruct (Nat.eqb _ 0); cbn [fst]; auto.
  right. exists o. split; [reflexivity|].
  unfold authorize_flow, ask.
  destruct (request_object
              [("method", str "wallet_requestPermissions");
               ("params", VArr [VObj o])] s) as [pid H].
  unfold permissionsRequest.
  destruct (request _ s) as [x s1]. cbn in H. subst x. reflexivity.
Qed.

Lemma perform_once (a : action) (s : State) :
  warnings_once s -> warnings_once (perform a s).
Proof.
  intro W. destruct a; cbn [perform].
  - now apply step_once.
  - now apply warn_once_once.
  - now apply warn_once_once.
  - destruct (authorize_nil requestedPermissions s) as [-> | (o & _ & ->)];
      [exact W | now apply request_once].
  - unfold autoReloadTimer. destruct (_ && _); [now apply warn_once_once | exact W].
Qed.

(** X1. Over the life of a provider, whatever is called on it and
    whatever it receives, each deprecation warning is written to the
    console at most once, and not at all before its flag is set. *)
Theorem warnings_logged_once
    (l : list action) (listeners : nat) (w : option value) (name : string) :
  let s := perform_all l (init listeners w) in
  count_warning name (console s) <= 1 /\
  (warned name s = false -> count_warning name (console s) = 0).
Proof.
  cbv zeta.
  assert (H : forall s, warnings_once s -> warnings_once (perform_all l s)).
  { induction l as [|a l IH]; intros s W; [exact W|].
    cbn [perform_all fold_left]. apply IH. now apply perform_once. }
  apply H. intro n. split; [cbn; lia | reflexivity].
Qed.

Example warnings_logged_once_run :
  let s := perform_all
             [Act OpEnable; CallIsConnected; Act OpEnable;
              Act (OpSend (VObj [("method", str "net_version")]) undefined);
              CallIsConnected; CallMetamask IsEnabled; CallMetamask IsUnlocked;
              Act (OpSend (VObj [("method", str "eth_coinbase")]) undefined)]
             (init 0 None) in
  console s
  = [Log "warn" "messages.warnings.enable" [];
     Log "warn" "messages.warnings.isConnected" [];
     Log "warn" "messages.warnings.sendSync" [];
     Log "warn" "messages.warnings.experimentalMethods" []].
Proof. reflexivity. Qed.

Lemma warnings_logged_once_witness :
  let s := perform_all [Act OpEnable; Act OpEnable] (init 0 None) in
  count_warning "enable" (console s) <= 1 /\
  count_warning "sendSync" (console s) = 0.
Proof.
  intro s. split.
  - exact (proj1 (warnings_logged_once [Act OpEnable; Act OpEnable] 0 None "enable")).
  - exact (proj2 (warnings_logged_once [Act OpEnable; Act OpEnable] 0 None "sendSync")
             eq_refl).
Defined.

(** ** Calls that only reach the engine *)

Lemma authorize_nil_same (r : value) (s : State) :
  same_core s (fst (authorize r [] s)).
Proof.
  destruct (authorize_nil r s) as [-> | (o & _ & ->)];
    [apply same_core_refl | apply request_same].
Qed.

(** ** The synchronous legacy methods *)

Lemma warn_once_public (name : string) (s : State) :
  selectedAddress (warn_once name s) = selectedAddress s /\
  networkVersion (warn_once name s) = networkVersion s /\
  handled (warn_once name s) = handled s /\
  emitted (warn_once name s) = emitted s.
Proof. unfold warn_once. destruct (warned name s); repeat split. Qed.

Lemma send_sync_method (o : list (string * value)) (name : string) (s : State) :
  lookup "method" o = Some (str name) ->
  includes syncMethods (str name) = true ->
  send (VObj o) undefined s
  = (match fst (_sendSync (VObj o) s) with
     | inl e => Threw e
     | inr v => Returned v
     end, snd (_sendSync (VObj o) s)).
Proof.
  intros Hm Hi. unfold send. cbn [strict_eq undefined prim_eqb negb typeof_string get].
  rewrite Hm. cbn [prop]. rewrite Hi. destruct (_sendSync (VObj o) s) as [[e|v] s']; reflexivity.
Qed.

(** X3. In every state reached by operations whose account lists hold
    primitive values, the legacy request objects are answered from the
    cache, at once and without the engine: [eth_accounts] with the empty
    list when no address is selected and otherwise with the one-element
    list of the selected address, which heads the cached accounts;
    [eth_coinbase] with the selected address; [net_version] with the cached
    network version, or [null] when that is falsy. *)
Theorem sync_methods_read_cache
    (ops : list op) (listeners : nat) (w : option value)
    (o : list (string * value)) :
  forallb op_prim ops = true ->
  let s := run ops (init listeners w) in
  let s' := warn_once "sendSync" s in
  handled s' = handled s /\ emitted s' = emitted s /\
  (lookup "method" o = Some (str "eth_accounts") ->
   exists r,
     send (VObj o) undefined s = (Returned (syncResponse (VObj o) r), s') /\
     ((selectedAddress s = null /\ r = VArr []) \/
      (hd_error (accounts s) = Some (selectedAddress s) /\
       r = VArr [selectedAddress s]))) /\
  (lookup "method" o = Some (str "eth_coinbase") ->
   send (VObj o) undefined s
   = (Returned (syncResponse (VObj o) (selectedAddress s)), s')) /\
  (lookup "method" o = Some (str "net_version") ->
   send (VObj o) undefined s
   = (Returned (syncResponse (VObj o) (or_else (VPrim (networkVersion s)) null)),
      s')).
Proof.
  intros Hops s s'.
  destruct (run_ok ops (init listeners w) Hops (init_ok listeners w)) as [_ Hs].
  fold s in Hs.
  destruct (warn_once_public "sendSync" s) as (Hsel & Hnet & Hh & He).
  fold s' in Hsel, Hnet, Hh, He.
  split; [exact Hh|]. split; [exact He|]. split; [|split].
  - intro Hm. rewrite (send_sync_method o "eth_accounts" s Hm eq_refl).
    unfold _sendSync, method_of. cbn [get]. rewrite Hm. fold s'.
    cbn [prop strict_eq str prim_eqb String.eqb Ascii.eqb Bool.eqb fst snd].
    rewrite Hsel. eexists. split; [reflexivity|].
    destruct Hs as [Hn | [Ht Hh']].
    + left. rewrite Hn. split; reflexivity.
    + right. rewrite Ht. split; [assumption | reflexivity].
  - intro Hm. rewrite (send_sync_method o "eth_coinbase" s Hm eq_refl).
    unfold _sendSync, method_of. cbn [get]. rewrite Hm. fold s'.
    cbn [prop strict_eq str prim_eqb String.eqb Ascii.eqb Bool.eqb fst snd].
    rewrite Hsel. do 3 f_equal.
    destruct Hs as [Hn | [Ht _]]; unfold or_else; [now rewrite Hn | now rewrite Ht].
  - intro Hm. rewrite (send_sync_method o "net_version" s Hm eq_refl).
    unfold _sendSync, method_of. cbn [get]. rewrite Hm. fold s'.
    cbn [prop strict_eq str prim_eqb String.eqb Ascii.eqb Bool.eqb fst snd].
    rewrite Hnet. reflexivity.
Qed.

Lemma sync_methods_read_cache_witness :
  let s := run [OpAccounts (VArr [str "0xA"; str "0xB"])] (init 0 None) in
  let o := [("id", num 1); ("method", str "eth_accounts")] in
  exists r,
    send (VObj o) undefined s
    = (Returned (syncResponse (VObj o) r), warn_once "sendSync" s) /\
    ((selectedAddress s = null /\ r = VArr []) \/
     (hd_error (accounts s) = Some (selectedAddress s) /\
      r = VArr [selectedAddress s])).
Proof.
  intros s o.
  exact (proj1 (proj2 (proj2
           (sync_methods_read_cache [OpAccounts (VArr [str "0xA"; str "0xB"])]
              0 None o eq_refl))) eq_refl).
Defined.

(** ** Answers to [eth_accounts] *)

Lemma request_spec (o : list (string * value)) (s : State) :
  exists s1,
    request (VObj o) s = (inr (nextPromise s), s1) /\
    handled s1 = handled s ++
      [((if truthy (prop (lookup "jsonrpc" o)) then VObj o
         else VObj (set_field "jsonrpc" (str "2.0") o)),
        (if strict_eq (method_of (VObj o)) (str "eth_accounts")
         then AccountsCb (PromiseCb (nextPromise s))
         else PromiseCb (nextPromise s)))] /\
    delivered s1 = delivered s /\ nextPromise s1 = S (nextPromise s) /\
    same_core s s1.
Proof.
  pose proof (request_same (VObj o) s) as Hc. unfold request in *.
  destruct (sendAsync_spec o (PromiseCb (nextPromise s))
              (set_nextPromise (S (nextPromise s)) s)) as (s1 & E & Hh & Hd & Hn).
  rewrite E in *. exists s1. repeat split; try assumption; apply Hc.
Qed.

Lemma send_method_request (name : string) (s : State) :
  name <> "eth_requestAccounts" ->
  send (str name) undefined s
  = (Promise (nextPromise s),
     snd (request (VObj [("method", str name); ("params", undefined)]) s)).
Proof.
  intro Hn. apply String.eqb_neq in Hn.
  unfold send. cbn [strict_eq undefined prim_eqb negb typeof_string str].
  unfold send_payload, malformed, method_of.
  cbn [isArray typeof_object negb get lookup String.eqb Ascii.eqb Bool.eqb
       typeof_string strict_eq prim_eqb str].
  rewrite Hn.
  destruct (request_spec [("method", VPrim (PStr name)); ("params", VPrim PUndef)] s)
    as (s1 & E & _).
  unfold str, undefined in *. rewrite E. reflexivity.
Qed.

(** X4. In a state reached by operations whose account lists hold
    primitive values, [send('eth_accounts')] followed by a successful
    answer of the engine resolves the promise with the result as received
    and reconciles the cache with it: the cached accounts become the result
    when it is an array and the empty list otherwise, the selected address
    follows, and [accountsChanged] is emitted once exactly when the cached
    list changed. *)
Theorem eth_accounts_answer_reconciles
    (ops : list op) (listeners : nat) (w : option value) (v : value) :
  forallb op_prim ops = true -> prim_input v = true ->
  let s := run ops (init listeners w) in
  let s1 := snd (send (str "eth_accounts") undefined s) in
  let s2 := onReply (List.length (handled s)) null (mkResponse (Some v) None) s1 in
  let l := effective_accounts (or_else v (VArr [])) in
  fst (send (str "eth_accounts") undefined s) = Promise (nextPromise s) /\
  settled (nextPromise s) s2 = Some (Resolved v) /\
  accounts s2 = l /\
  selectedAddress s2 = or_else (first l) null /\
  new_events s s2
  = (if dequal (VArr (accounts s)) (VArr l) then []
     else [("accountsChanged", [VArr l])]).
Proof.
  intros Hops Hv. cbv zeta. set (s := run ops (init listeners w)).
  set (l := effective_accounts (or_else v (VArr []))).
  destruct (run_ok ops (init listeners w) Hops (init_ok listeners w)) as [Hp Hs].
  pose proof (fresh_reachable ops listeners w) as Hf. fold s in Hp, Hs, Hf.
  assert (Hneq : "eth_accounts" <> "eth_requestAccounts")
    by (apply String.eqb_neq; reflexivity).
  rewrite (send_method_request "eth_accounts" s Hneq).
  cbn [fst snd]. split; [reflexivity|].
  destruct (request_spec [("method", str "eth_accounts"); ("params", undefined)] s)
    as (s1 & E & Hh & Hd & Hn & Hc).
  rewrite E. cbn [snd].
  destruct Hc as (Ca & Csel & _ & Cem & _).
  change (strict_eq (method_of _) (str "eth_accounts")) with true in Hh.
  cbv iota in Hh.
  set (res := mkResponse (Some v) None).
  set (X := _handleAccountsChanged (or_else v (VArr [])) s1).
  assert (E2 : onReply (List.length (handled s)) null res s1
               = set_delivered
                   (delivered X ++ [(PromiseCb (nextPromise s), (null, res))]) X).
  { unfold onReply. rewrite Hh, nth_error_snoc. reflexivity. }
  destruct (handleAccounts_frame (or_else v (VArr [])) s1) as (_ & Xd & _).
  destruct (handleAccounts_spec (or_else v (VArr [])) s1) as (_ & Xe & _).
  cbv zeta in Xe. fold X in Xd, Xe. fold l in Xe.
  assert (Hp1 : forallb is_prim (accounts s1) = true) by now rewrite Ca.
  assert (Hs1 : selected_ok s1) by (unfold selected_ok; now rewrite Ca, Csel).
  rewrite E2. split; [|split; [|split]].
  - rewrite settled_deliver; [reflexivity|].
    rewrite Xd, Hd. apply Hf. lia.
  - change (accounts (set_delivered ?d X)) with (accounts X).
    apply handleAccounts_prim. exact Hp1.
  - change (selectedAddress (set_delivered ?d X)) with (selectedAddress X).
    apply handleAccounts_selected. exact Hs1.
  - apply new_events_app.
    change (emitted (set_delivered ?d X)) with (emitted X).
    rewrite Xe, Cem, Ca, dequal_arr. reflexivity.
Qed.

Lemma eth_accounts_answer_reconciles_witness :
  let s := run [OpConnect] (init 0 None) in
  let s1 := snd (send (str "eth_accounts") undefined s) in
  let s2 := onReply (List.length (handled s)) null
              (mkResponse (Some (VArr [str "0xA"])) None) s1 in
  settled (nextPromise s) s2 = Some (Resolved (VArr [str "0xA"])) /\
  accounts s2 = [str "0xA"].
Proof.
  intros s s1 s2.
  pose proof (eth_accounts_answer_reconciles [OpConnect] 0 None
                (VArr [str "0xA"]) eq_refl eq_refl) as H.
  cbv zeta in H. destruct H as (_ & H1 & H2 & _). split; [exact H1 | exact H2].
Defined.

(** ** The connected flag *)

Lemma step_flag (o : op) (s : State) :
  isConnected (step o s)
  = match o with
    | OpConnect => Some true
    | OpDisconnect _ _ => Some false
    | _ => isConnected s
    end.
Proof.
  destruct o; try reflexivity;
    match goal with
    | |- isConnected (step ?o s) = _ =>
        exact (proj1 (step_no_close o s eq_refl eq_refl))
    end.
Qed.

(** X5. The connected flag follows the lifecycle and nothing else: after
    any run of operations on a constructed provider, [isConnected()]
    returns [undefined] when the run holds neither a connect announcement
    nor a disconnect signal, and otherwise [true] or [false] as the last of
    them was a connect or a disconnect. *)
Theorem isConnected_follows_lifecycle
    (ops : list op) (listeners : nat) (w : option value) :
  fst (isConnected_call (run ops (init listeners w))) = last_lifecycle ops.
Proof.
  assert (H : forall s, isConnected (run ops s)
                        = match last_lifecycle ops with
                          | Some b => Some b
                          | None => isConnected s
                          end).
  { induction ops as [|o ops IH]; intro s; [reflexivity|].
    cbn [run fold_left last_lifecycle]. fold (run ops (step o s)).
    rewrite IH, step_flag. destruct (last_lifecycle ops); [reflexivity|].
    destruct o; reflexivity. }
  unfold isConnected_call. cbn [fst].
  destruct (warn_once_same "isConnected" (run ops (init listeners w)))
    as (_ & _ & C & _).
  rewrite C, H. destruct (last_lifecycle ops); reflexivity.
Qed.

Example isConnected_run :
  fst (isConnected_call
         (run [OpConnect; OpAccounts (VArr [str "0xA"]);
               OpDisconnect "MetaMask" None; OpSend (str "eth_chainId") undefined]
            (init 0 None)))
  = Some false.
Proof. reflexivity. Qed.

(** ** The enabled query *)

(** X6. In every state reached by operations whose account lists hold
    primitive values, a selected address means the domain reports as
    enabled: when [selectedAddress] is not [null], [_metamask.isEnabled()]
    and [_metamask.isApproved()] give [true]; when they give [false],
    [selectedAddress] is [null]. *)
Theorem enabled_when_selected
    (ops : list op) (listeners : nat) (w : option value) :
  forallb op_prim ops = true ->
  let s := run ops (init listeners w) in
  (selectedAddress s <> null ->
   fst (_metamask_call IsEnabled s) = VPrim (PBool true) /\
   fst (_metamask_call IsApproved s) = VPrim (PBool true)) /\
  (fst (_metamask_call IsEnabled s) = VPrim (PBool false) ->
   selectedAddress s = null).
Proof.
  intros Hops s.
  destruct (run_ok ops (init listeners w) Hops (init_ok listeners w)) as [_ Hs].
  fold s in Hs.
  destruct (warn_once_same "experimentalMethods" s) as (A & _).
  unfold _metamask_call, hasAccounts. cbn [fst]. rewrite A.
  destruct Hs as [Hn | [_ Hh]].
  - split; [intro H; contradiction | intros _; exact Hn].
  - destruct (accounts s); [discriminate|]. split; [auto | discriminate].
Qed.

Lemma enabled_when_selected_witness :
  let s := run [OpAccounts (VArr [str "0xA"])] (init 0 None) in
  fst (_metamask_call IsEnabled s) = VPrim (PBool true) /\
  fst (_metamask_call IsApproved s) = VPrim (PBool true).
Proof.
  intro s.
  apply (proj1 (enabled_when_selected [OpAccounts (VArr [str "0xA"])] 0 None eq_refl)).
  discriminate.
Defined.

(** ** Repeated reconciliation *)

Lemma dequal_list_prim_refl (l : list value) :
  forallb is_prim l = true -> dequal_list l l = true.
Proof.
  induction l as [|a l IH]; [reflexivity|]. cbn [forallb dequal_list].
  rewrite andb_true_iff. intros [Ha Hl]. rewrite (IH Hl), andb_true_r.
  destruct a; try discriminate. cbn. apply prim_eqb_refl.
Qed.

Lemma set_selectedAddress_same (s : State) :
  set_selectedAddress (selectedAddress s) s = s.
Proof. destruct s; reflexivity. Qed.

Lemma set_web3_same (s : State) : set_web3 (web3 s) s = s.
Proof. destruct s; reflexivity. Qed.

Lemma handleAccounts_web3 (a : value) (s : State) :
  web3 (_handleAccountsChanged a s)
  = match web3 s with
    | Some _ => Some (selectedAddress (_handleAccountsChanged a s))
    | None => None
    end.
Proof.
  unfold _handleAccountsChanged.
  set (s3 := if negb (strict_eq _ _) then _ else _).
  assert (H : web3 s3 = web3 s).
  { subst s3. destruct (negb (isArray a)), (negb (dequal _ _)), (negb (strict_eq _ _));
      reflexivity. }
  rewrite <- H. destruct (web3 s3) eqn:E; [|exact E]. reflexivity.
Qed.

(** X7. Reconciling the same array of primitive values a second time
    changes nothing at all: no event, no log, and the state is the one the
    first reconciliation left. *)
Theorem reconcile_twice (l : list value) (s : State) :
  forallb is_prim l = true ->
  _handleAccountsChanged (VArr l) (_handleAccountsChanged (VArr l) s)
  = _handleAccountsChanged (VArr l) s.
Proof.
  intro Hl.
  destruct (handleAccounts_spec (VArr l) s) as (_ & _ & Hacc & Hsel).
  pose proof (handleAccounts_web3 (VArr l) s) as Hweb.
  cbv zeta in *. cbn [effective_accounts] in *.
  set (s' := _handleAccountsChanged (VArr l) s) in *.
  assert (Hd : dequal (VArr (accounts s')) (VArr l) = true).
  { rewrite dequal_arr, Hacc. destruct (dequal_list (accounts s) l) eqn:E;
      [exact E | now apply dequal_list_prim_refl]. }
  assert (Hs : (if negb (strict_eq (selectedAddress s') (first l))
                then set_selectedAddress (or_else (first l) null) s' else s') = s').
  { destruct (strict_eq (selectedAddress s') (first l)) eqn:E; [reflexivity|].
    cbn [negb].
    assert (Hv : selectedAddress s' = or_else (first l) null).
    { rewrite Hsel. destruct (strict_eq (selectedAddress s) (first l)) eqn:E0;
        [|reflexivity].
      rewrite Hsel, E0 in E. congruence. }
    rewrite <- Hv. apply set_selectedAddress_same. }
  unfold _handleAccountsChanged at 1. cbn [isArray negb effective_accounts].
  rewrite Hd. cbn [negb]. rewrite Hs.
  destruct (web3 s') eqn:E; [|reflexivity].
  destruct (web3 s); [|discriminate]. rewrite <- Hweb, <- E.
  apply set_web3_same.
Qed.

Lemma reconcile_twice_witness :
  _handleAccountsChanged (VArr [str "0xA"; str "0xB"])
    (_handleAccountsChanged (VArr [str "0xA"; str "0xB"]) (init 0 (Some null)))
  = _handleAccountsChanged (VArr [str "0xA"; str "0xB"]) (init 0 (Some null)).
Proof.
  exact (reconcile_twice [str "0xA"; str "0xB"] (init 0 (Some null)) eq_refl).
Defined.

(** ** The payload handed to the engine *)

Lemma lookup_set_field_eq (k : string) (x : value) (o : list (string * value)) :
  lookup k (set_field k x o) = Some x.
Proof.
  induction o as [|[k' v] o IH]; cbn [set_field lookup].
  - now rewrite String.eqb_refl.
  - destruct (String.eqb k k') eqn:E; cbn [lookup]; rewrite ?String.eqb_refl, ?E;
      auto.
Qed.

Lemma lookup_set_field_neq (k k' : string) (x : value) (o : list (string * value)) :
  k <> k' -> lookup k (set_field k' x o) = lookup k o.
Proof.
  intro Hk. apply String.eqb_neq in Hk.
  induction o as [|[k0 v] o IH]; cbn [set_field lookup].
  - now rewrite Hk.
  - destruct (String.eqb k' k0) eqn:E; cbn [lookup].
    + apply String.eqb_eq in E. subst k0. now rewrite Hk.
    + destruct (String.eqb k k0); auto.
Qed.

(** X8. Whatever object [_sendAsync] is given, the request it hands to
    the engine carries a truthy [jsonrpc]: the caller's own when that is
    truthy, in which case the payload goes out as it came, and ['2.0'] when
    it is absent or falsy; every other property of the payload, the method
    included, goes out unchanged. *)
Theorem sendAsync_sets_version
    (o : list (string * value)) (cb : callback) (s : State) :
  exists s' p cb',
    _sendAsync (VObj o) cb s = Some s' /\
    handled s' = handled s ++ [(VObj p, cb')] /\
    truthy (prop (lookup "jsonrpc" p)) = true /\
    (truthy (prop (lookup "jsonrpc" o)) = true -> p = o) /\
    (truthy (prop (lookup "jsonrpc" o)) = false ->
     lookup "jsonrpc" p = Some (str "2.0")) /\
    (forall k, k <> "jsonrpc" -> lookup k p = lookup k o).
Proof.
  destruct (sendAsync_spec o cb s) as (s' & E & Hh & _).
  destruct (truthy (prop (lookup "jsonrpc" o))) eqn:Ht.
  - exists s', o, (if strict_eq (method_of (VObj o)) (str "eth_accounts")
                   then AccountsCb cb else cb).
    repeat split; auto. discriminate.
  - exists s', (set_field "jsonrpc" (str "2.0") o),
      (if strict_eq (method_of (VObj o)) (str "eth_accounts")
       then AccountsCb cb else cb).
    repeat split; auto.
    + now rewrite lookup_set_field_eq.
    + discriminate.
    + intros _. apply lookup_set_field_eq.
    + intros k Hk. now apply lookup_set_field_neq.
Qed.

Lemma sendAsync_sets_version_witness :
  exists s' p cb',
    _sendAsync (VObj [("method", str "eth_gasPrice"); ("jsonrpc", num 0)])
      (UserCb 1) (init 0 None) = Some s' /\
    handled s' = handled (init 0 None) ++ [(VObj p, cb')] /\
    lookup "jsonrpc" p = Some (str "2.0") /\
    lookup "method" p = Some (str "eth_gasPrice").
Proof.
  destruct (sendAsync_sets_version
              [("method", str "eth_gasPrice"); ("jsonrpc", num 0)] (UserCb 1)
              (init 0 None)) as (s' & p & cb' & E & H & _ & _ & V & K).
  exists s', p, cb'. split; [exact E|]. split; [exact H|].
  split; [exact (V eq_refl)|].
  rewrite (K "method"); [reflexivity | discriminate].
Defined.

Example sendAsync_keeps_version :
  map fst (handled (snd (send (VObj [("jsonrpc", str "1.0"); ("method", str "eth_gasPrice")])
                           undefined (init 0 None))))
  = [VObj [("jsonrpc", str "1.0"); ("method", str "eth_gasPrice")]].
Proof. reflexivity. Qed.

(** ** [eth_uninstallFilter], sent and forgotten *)

(** X9. A request object for [eth_uninstallFilter] is answered with
    [true] at once.  The request is also handed to the engine, with a
    callback that does nothing, so that the answer of the engine, whatever
    it is, leaves the provider as it was.  The object returned carries the
    caller's [id] and the [jsonrpc] of the request as it was handed to the
    engine, since both are read from the one payload object after
    [sendAsync] has run on it: the caller's own version when that is
    truthy, and ['2.0'] when it is absent or falsy. *)
Theorem uninstallFilter_forgets_answer (o : list (string * value)) (s : State) :
  lookup "method" o = Some (str "eth_uninstallFilter") ->
  exists s' p,
    send (VObj o) undefined s
    = (Returned (VObj [("id", prop (lookup "id" o));
                       ("jsonrpc", prop (lookup "jsonrpc" p));
                       ("result", VPrim (PBool true))]), s') /\
    handled s' = handled s ++ [(VObj p, NoopCb)] /\
    (truthy (prop (lookup "jsonrpc" o)) = true -> p = o) /\
    (truthy (prop (lookup "jsonrpc" o)) = false ->
     lookup "jsonrpc" p = Some (str "2.0")) /\
    forall err res, onReply (List.length (handled s)) err res s' = s'.
Proof.
  intro Hm. rewrite (send_sync_method o "eth_uninstallFilter" s Hm eq_refl).
  unfold _sendSync, method_of. cbn [get]. rewrite Hm.
  cbn [prop strict_eq str prim_eqb String.eqb Ascii.eqb Bool.eqb].
  unfold sendAsync.
  set (s1 := warn_once "sendAsync" (warn_once "sendSync" s)).
  destruct (sendAsync_spec o NoopCb s1) as (s' & E & Hh & _).
  rewrite E. cbn [fst snd].
  assert (Hmeth : strict_eq (method_of (VObj o)) (str "eth_accounts") = false).
  { unfold method_of. cbn [get]. rewrite Hm. reflexivity. }
  rewrite Hmeth in Hh.
  assert (H1 : handled s1 = handled s)
    by (subst s1; now rewrite !warn_once_handled).
  rewrite H1 in Hh.
  assert (Hr : forall err res, onReply (List.length (handled s)) err res s' = s').
  { intros err res. unfold onReply. rewrite Hh, nth_error_snoc. reflexivity. }
  unfold sentPayload. cbn [get].
  change (match lookup "jsonrpc" o with Some x => x | None => undefined end)
    with (prop (lookup "jsonrpc" o)).
  destruct (truthy (prop (lookup "jsonrpc" o))) eqn:Ht; cbn [negb set_prop].
  - exists s', o. split; [reflexivity|]. split; [exact Hh|].
    split; [reflexivity|]. split; [discriminate | exact Hr].
  - exists s', (set_field "jsonrpc" (str "2.0") o).
    split.
    + unfold syncResponse.
      rewrite (lookup_set_field_neq "id" "jsonrpc" (str "2.0") o)
        by (apply String.eqb_neq; reflexivity).
      reflexivity.
    + split; [exact Hh|]. split; [discriminate|].
      split; [intros _; apply lookup_set_field_eq | exact Hr].
Qed.

(** A request without a version comes back as
    [{id: undefined, jsonrpc: '2.0', result: true}]. *)
Lemma uninstallFilter_forgets_answer_witness :
  let o := [("method", str "eth_uninstallFilter"); ("params", VArr [str "0x1"])] in
  exists s' p,
    send (VObj o) undefined (init 0 None)
    = (Returned (VObj [("id", undefined); ("jsonrpc", str "2.0");
                       ("result", VPrim (PBool true))]), s') /\
    handled s' = [(VObj p, NoopCb)] /\
    lookup "jsonrpc" p = Some (str "2.0") /\
    forall err res, onReply 0 err res s' = s'.
Proof.
  intro o.
  destruct (uninstallFilter_forgets_answer o (init 0 None) eq_refl)
    as (s' & p & E & Hh & _ & Hv & Hr).
  exists s', p. split; [|split; [|split]].
  - rewrite E, (Hv eq_refl). reflexivity.
  - exact Hh.
  - exact (Hv eq_refl).
  - exact Hr.
Defined.

(** ** The composite flow never rejects *)


Lemma ask_accounts_failure (err c : value) (res : Response) (rs : replies)
    (s : State) :
  fresh s -> truthy err = true -> get err "code" = Some c -> truthy c = true ->
  exists s2,
    ask ethAccountsRequest ((err, res) :: rs) s = (s2, Some (Rejected err), rs) /\
    handled s2 = handled s ++
      [(ethAccountsSent, AccountsCb (PromiseCb (nextPromise s)))].
Proof.
  intros Hf Ht Hc Htc. unfold ask, ethAccountsRequest.
  destruct (request_spec [("method", str "eth_accounts")] s)
    as (s1 & E & Hh0 & Hd & Hn & _).
  assert (Hh : handled s1 = handled s ++
                 [(ethAccountsSent, AccountsCb (PromiseCb (nextPromise s)))])
    by exact Hh0.
  rewrite E. unfold onReply. rewrite Hh, nth_error_snoc.
  cbn [invoke]. unfold accountsCb. rewrite Ht, Hc, Htc.
  set (res1 := if strict_eq c (num 4100)
               then mkResponse (Some (VArr [])) None else res).
  assert (Hres : (if strict_eq c (num 4100)
                  then Some (mkResponse (Some (VArr [])) None) else Some res)
                 = Some res1)
    by (unfold res1; destruct (strict_eq c (num 4100)); reflexivity).
  rewrite Hres.
  set (X := _handleAccountsChanged _ s1).
  destruct (handleAccounts_frame (or_else (prop (res_result res1)) (VArr [])) s1)
    as (Xh & Xd & _). fold X in Xh, Xd.
  eexists. split.
  - rewrite settled_deliver; [|rewrite Xd, Hd; apply Hf; lia].
    unfold rpcPromiseCallback, or_else. rewrite Ht, Ht. reflexivity.
  - change (handled (set_delivered ?d X)) with (handled X). rewrite Xh. exact Hh.
Qed.

(** X11. In every state reached from the constructed provider, when the
    engine answers the first [eth_accounts] query of the composite flow
    with an error that has a truthy code, the flow stops there: the
    permission is not requested, the error is written to the console, and
    the promise resolves with [undefined]. *)
Theorem requestAccounts_failed_query
    (ops : list op) (listeners : nat) (w : option value)
    (err c : value) (res : Response) (rs : replies) :
  truthy err = true -> get err "code" = Some c -> truthy c = true ->
  let s := run ops (init listeners w) in
  exists s',
    _requestAccounts ((err, res) :: rs) s = (s', Some (Resolved undefined)) /\
    handled s' = handled s ++
      [(ethAccountsSent, AccountsCb (PromiseCb (nextPromise s)))] /\
    exists before, console s' = before ++ [Log "error" "" [err]].
Proof.
  intros Ht Hc Htc s.
  destruct (ask_accounts_failure err c res rs s
              (fresh_reachable ops listeners w) Ht Hc Htc) as (s2 & E & Hh).
  unfold _requestAccounts. rewrite E.
  eexists. split; [reflexivity|]. split; [exact Hh|].
  exists (console s2). reflexivity.
Qed.

Lemma requestAccounts_failed_query_witness :
  let err := VObj [("code", num 4001); ("message", str "User rejected")] in
  let s := run [OpConnect] (init 0 None) in
  exists s',
    _requestAccounts [(err, mkResponse None (Some err))] s
    = (s', Some (Resolved undefined)) /\
    handled s' = handled s ++
      [(ethAccountsSent, AccountsCb (PromiseCb (nextPromise s)))] /\
    exists before, console s' = before ++ [Log "error" "" [err]].
Proof.
  intros err s.
  exact (requestAccounts_failed_query [OpConnect] 0 None err (num 4001)
           (mkResponse None (Some err)) [] eq_refl eq_refl eq_refl).
Defined.

(** ** [authorize] *)

(** One request for a method other than [eth_accounts], answered: the
    promise settles as [rpcPromiseCallback] says, and nothing is emitted. *)
Lemma ask_plain (o : list (string * value)) (err : value) (res : Response)
    (rs : replies) (s : State) :
  strict_eq (method_of (VObj o)) (str "eth_accounts") = false ->
  fresh s ->
  exists s2,
    ask (VObj o) ((err, res) :: rs) s = (s2, Some (rpcPromiseCallback err res), rs) /\
    handled s2 = handled s ++
      [((if truthy (prop (lookup "jsonrpc" o)) then VObj o
         else VObj (set_field "jsonrpc" (str "2.0") o)),
        PromiseCb (nextPromise s))] /\
    nextPromise s2 = S (nextPromise s) /\
    emitted s2 = emitted s /\
    fresh s2.
Proof.
  intros Hm Hf. unfold ask.
  destruct (request_spec o s) as (s1 & E & Hh & Hd & Hn & Hc).
  rewrite Hm in Hh. rewrite E. unfold onReply. rewrite Hh, nth_error_snoc.
  cbn [invoke].
  assert (Hfind : find (fun d => callback_eqb (PromiseCb (nextPromise s)) (fst d))
                    (delivered s1) = None)
    by (rewrite Hd; apply Hf; lia).
  eexists. split; [|split; [|split; [|split]]].
  - rewrite (settled_deliver _ err res s1 Hfind). reflexivity.
  - exact Hh.
  - exact Hn.
  - destruct Hc as (_ & _ & _ & He & _). exact He.
  - apply (fresh_deliver (nextPromise s) (err, res) s); auto.
    change (delivered (set_delivered ?d s1)) with d. congruence.
Qed.

(** X12. [authorize] refuses, before anything is handed to the engine, a
    request that is not an object, is an array, or is an object without a
    property: its promise is rejected and the state is untouched.  The
    error is the invalid-params error, except for [null], where
    [Object.keys] throws. *)
Theorem authorize_validates (r : value) (rs : replies) (s : State) :
  is_object r = false \/ r = VObj [] ->
  authorize r rs s
  = (s, Some (Rejected (if strict_eq r null then typeError
                        else invalidPermissions))).
Proof.
  intros [H | ->]; [|reflexivity].
  destruct r as [[| | | |]|l|o]; try reflexivity. discriminate.
Qed.

Lemma authorize_validates_witness :
  authorize (VArr [str "eth_accounts"]) [] (init 0 None)
  = (init 0 None, Some (Rejected invalidPermissions)).
Proof.
  exact (authorize_validates (VArr [str "eth_accounts"]) [] (init 0 None)
           (or_introl eq_refl)).
Defined.

Lemma ask_permissions (r err : value) (res : Response) (rs : replies) (s : State) :
  fresh s ->
  exists s1,
    ask (permissionsRequest r) ((err, res) :: rs) s
    = (s1, Some (rpcPromiseCallback err res), rs) /\
    handled s1 = handled s ++ [(permissionsSent r, PromiseCb (nextPromise s))] /\
    nextPromise s1 = S (nextPromise s) /\ emitted s1 = emitted s /\ fresh s1.
Proof.
  intro Hf. unfold permissionsRequest.
  destruct (ask_plain [("method", str "wallet_requestPermissions");
                       ("params", VArr [r])] err res rs s eq_refl Hf)
    as (s1 & E & H). exists s1. split; [exact E | exact H].
Qed.

Lemma ask_install (granted : list string) (err : value) (res : Response)
    (rs : replies) (s : State) :
  fresh s ->
  exists s1,
    ask (installRequest granted) ((err, res) :: rs) s
    = (s1, Some (rpcPromiseCallback err res), rs) /\
    handled s1 = handled s ++ [(installSent granted, PromiseCb (nextPromise s))] /\
    nextPromise s1 = S (nextPromise s) /\ emitted s1 = emitted s /\ fresh s1.
Proof.
  intro Hf. unfold installRequest.
  destruct (ask_plain [("method", str "wallet_installPlugins");
                       ("params", VArr (map str granted))] err res rs s eq_refl Hf)
    as (s1 & E & H). exists s1. split; [exact E | exact H].
Qed.

Lemma rpcPromiseCallback_success (v : value) :
  rpcPromiseCallback null (mkResponse (Some v) None) = Resolved v.
Proof. reflexivity. Qed.

Lemma rpcPromiseCallback_failure (err : value) (res : Response) :
  truthy (failure err res) = true ->
  rpcPromiseCallback err res = Rejected (failure err res).
Proof. unfold rpcPromiseCallback, failure. now intros ->. Qed.

Lemma keys_nonempty (o : list (string * value)) :
  o <> [] -> Nat.eqb (List.length (keys o)) 0 = false.
Proof. destruct o; [congruence | reflexivity]. Qed.

(** X13. In every state reached from the constructed provider,
    [authorize] with a request object that names no plugin sends the one
    [wallet_requestPermissions] request, carrying the request object as its
    single parameter, and resolves with the pair of the permissions as
    granted and the empty list, whatever the permissions look like; nothing
    is emitted. *)
Theorem authorize_without_plugins
    (ops : list op) (listeners : nat) (w : option value)
    (o : list (string * value)) (perms : value) (rs : replies) :
  o <> [] -> filter isPluginName (keys o) = [] ->
  let s := run ops (init listeners w) in
  exists s',
    authorize (VObj o) (success perms :: rs) s
    = (s', Some (Resolved (VArr [perms; VArr []]))) /\
    handled s' = handled s ++
      [(permissionsSent (VObj o), PromiseCb (nextPromise s))] /\
    emitted s' = emitted s.
Proof.
  intros Ho Hp s. cbn [authorize]. rewrite (keys_nonempty o Ho).
  unfold authorize_flow, success. rewrite Hp.
  destruct (ask_permissions (VObj o) null (mkResponse (Some perms) None) rs s
              (fresh_reachable ops listeners w)) as (s1 & E & Hh & _ & He & _).
  rewrite E, rpcPromiseCallback_success. cbn [isNil].
  exists s1. repeat split; assumption.
Qed.

Lemma authorize_without_plugins_witness :
  let o := [("eth_accounts", VObj [])] in
  let s := run [OpConnect] (init 0 None) in
  exists s',
    authorize (VObj o) [success (str "granted")] s
    = (s', Some (Resolved (VArr [str "granted"; VArr []]))) /\
    handled s' = handled s ++
      [(permissionsSent (VObj o), PromiseCb (nextPromise s))] /\
    emitted s' = emitted s.
Proof.
  intros o s.
  apply (authorize_without_plugins [OpConnect] 0 None o (str "granted") []);
    [discriminate | reflexivity].
Defined.

Lemma grantedPlugins_In (requested permitted : list string) (n : string) :
  In n (grantedPlugins requested permitted) <-> In n requested /\ In n permitted.
Proof.
  unfold grantedPlugins. rewrite filter_In, existsb_exists. split.
  - intros [H (x & Hx & E)]. apply String.eqb_eq in E. subst x. now split.
  - intros [H H']. split; [assumption|]. exists n. split; [assumption|].
    apply String.eqb_refl.
Qed.

(** X14. In every state reached from the constructed provider, when the
    request names plugins and the permissions granted are an array of
    permission objects: the plugins installed are those named in the
    request, in the order of the request, whose name is also the
    [parentCapability] of a granted permission.  When there is none, only
    the permissions request is sent and the result is the permissions with
    the empty list; otherwise [wallet_installPlugins] is sent next with
    exactly those names, and the result is the permissions with what the
    engine answers. *)
Theorem authorize_installs_granted
    (ops : list op) (listeners : nat) (w : option value)
    (o : list (string * value)) (perms installed : value)
    (permitted : list string) (rs : replies) :
  filter isPluginName (keys o) <> [] ->
  permittedPlugins perms = Some permitted ->
  let s := run ops (init listeners w) in
  let granted := grantedPlugins (filter isPluginName (keys o)) permitted in
  (forall n, In n granted <->
             In n (keys o) /\ isPluginName n = true /\ In n permitted) /\
  (granted = [] ->
   exists s',
     authorize (VObj o) (success perms :: rs) s
     = (s', Some (Resolved (VArr [perms; VArr []]))) /\
     handled s' = handled s ++
       [(permissionsSent (VObj o), PromiseCb (nextPromise s))]) /\
  (granted <> [] ->
   exists s',
     authorize (VObj o) (success perms :: success installed :: rs) s
     = (s', Some (Resolved (VArr [perms; installed]))) /\
     handled s' = handled s ++
       [(permissionsSent (VObj o), PromiseCb (nextPromise s));
        (installSent granted, PromiseCb (S (nextPromise s)))]).
Proof.
  intros Hq Hp s granted.
  assert (Ho : o <> []) by (intros ->; apply Hq; reflexivity).
  assert (Hnil : isNil (filter isPluginName (keys o)) = false)
    by (destruct (filter isPluginName (keys o)); [congruence | reflexivity]).
  split; [|split].
  - intro n. unfold granted. rewrite grantedPlugins_In, filter_In. tauto.
  - intro Hg. cbn [authorize]. rewrite (keys_nonempty o Ho).
    unfold authorize_flow, success.
    destruct (ask_permissions (VObj o) null (mkResponse (Some perms) None) rs s
                (fresh_reachable ops listeners w)) as (s1 & E & Hh & _).
    rewrite E, rpcPromiseCallback_success, Hnil, Hp. fold granted. rewrite Hg.
    cbn [isNil]. exists s1. split; [reflexivity | exact Hh].
  - intro Hg. cbn [authorize]. rewrite (keys_nonempty o Ho).
    unfold authorize_flow, success.
    destruct (ask_permissions (VObj o) null (mkResponse (Some perms) None)
                ((null, mkResponse (Some installed) None) :: rs) s
                (fresh_reachable ops listeners w))
      as (s1 & E & Hh & Hn & _ & Hf).
    destruct (ask_install granted null (mkResponse (Some installed) None) rs s1 Hf)
      as (s2 & E2 & Hh2 & _).
    rewrite E, rpcPromiseCallback_success, Hnil, Hp. fold granted.
    assert (Hgn : isNil granted = false)
      by (destruct granted; [congruence | reflexivity]).
    rewrite Hgn, E2, rpcPromiseCallback_success.
    exists s2. split; [reflexivity|].
    rewrite Hh2, Hh, Hn, <- app_assoc. reflexivity.
Qed.

Lemma authorize_installs_granted_witness :
  let o := [("wallet_plugin_b", VObj []); ("eth_accounts", VObj []);
            ("wallet_plugin_a", VObj []); ("wallet_plugin_c", VObj [])] in
  let perms := VArr [VObj [("parentCapability", str "wallet_plugin_a")];
                     VObj [("parentCapability", str "eth_accounts")];
                     VObj [("parentCapability", str "wallet_plugin_b")]] in
  let s := run [OpConnect] (init 0 None) in
  exists s',
    authorize (VObj o) [success perms; success (str "installed")] s
    = (s', Some (Resolved (VArr [perms; str "installed"]))) /\
    handled s' = handled s ++
      [(permissionsSent (VObj o), PromiseCb (nextPromise s));
       (installSent ["wallet_plugin_b"; "wallet_plugin_a"],
        PromiseCb (S (nextPromise s)))].
Proof.
  intros o perms s.
  apply (proj2 (proj2 (authorize_installs_granted [OpConnect] 0 None o perms
                         (str "installed")
                         ["wallet_plugin_a"; "wallet_plugin_b"] []
                         ltac:(discriminate) eq_refl)));
    discriminate.
Defined.

(** X15. Failures of [authorize], in every state reached from the
    constructed provider.  When the permissions request fails, the promise
    is rejected with the error and nothing more is sent.  When plugins are
    requested and the permissions granted are not an array of objects with
    string capabilities, the promise is rejected with a TypeError.  When
    the installation fails with code 4301, the error is logged and the
    promise still resolves, with the permissions and the empty list; with
    any other error it is rejected with that error. *)
Theorem authorize_failures
    (ops : list op) (listeners : nat) (w : option value)
    (o : list (string * value)) (err : value) (res : Response) (rs : replies) :
  o <> [] ->
  truthy (failure err res) = true ->
  let s := run ops (init listeners w) in
  let e := failure err res in
  (exists s',
     authorize (VObj o) ((err, res) :: rs) s = (s', Some (Rejected e)) /\
     handled s' = handled s ++
       [(permissionsSent (VObj o), PromiseCb (nextPromise s))]) /\
  (forall perms,
     filter isPluginName (keys o) <> [] -> permittedPlugins perms = None ->
     exists s',
       authorize (VObj o) (success perms :: rs) s
       = (s', Some (Rejected typeError)) /\
       handled s' = handled s ++
         [(permissionsSent (VObj o), PromiseCb (nextPromise s))]) /\
  (forall perms permitted,
     permittedPlugins perms = Some permitted ->
     grantedPlugins (filter isPluginName (keys o)) permitted <> [] ->
     exists s2,
       authorize (VObj o) (success perms :: (err, res) :: rs) s
       = (if strict_eq (prop (get e "code")) (num 4301)
          then (log (Log "error" "" [e]) s2,
                Some (Resolved (VArr [perms; VArr []])))
          else (s2, Some (Rejected e)))).
Proof.
  intros Ho He s e.
  pose proof (fresh_reachable ops listeners w) as Hf. fold s in Hf.
  split; [|split].
  - cbn [authorize]. rewrite (keys_nonempty o Ho). unfold authorize_flow.
    destruct (ask_permissions (VObj o) err res rs s Hf) as (s1 & E & Hh & _).
    rewrite E, (rpcPromiseCallback_failure err res He).
    exists s1. split; [reflexivity | exact Hh].
  - intros perms Hq Hp. cbn [authorize]. rewrite (keys_nonempty o Ho).
    unfold authorize_flow, success.
    destruct (ask_permissions (VObj o) null (mkResponse (Some perms) None) rs s Hf)
      as (s1 & E & Hh & _).
    rewrite E, rpcPromiseCallback_success, Hp.
    destruct (filter isPluginName (keys o)); [congruence|]. cbn [isNil].
    exists s1. split; [reflexivity | exact Hh].
  - intros perms permitted Hp Hg. cbn [authorize]. rewrite (keys_nonempty o Ho).
    unfold authorize_flow, success.
    destruct (ask_permissions (VObj o) null (mkResponse (Some perms) None)
                ((err, res) :: rs) s Hf) as (s1 & E & _ & _ & _ & Hf1).
    set (granted := grantedPlugins (filter isPluginName (keys o)) permitted) in *.
    destruct (ask_install granted err res rs s1 Hf1) as (s2 & E2 & _).
    rewrite E, rpcPromiseCallback_success, Hp. fold granted.
    assert (Hq : isNil (filter isPluginName (keys o)) = false).
    { destruct (filter isPluginName (keys o)); [|reflexivity].
      exfalso. apply Hg. reflexivity. }
    assert (Hgn : isNil granted = false)
      by (destruct granted; [congruence | reflexivity]).
    rewrite Hq, Hgn, E2, (rpcPromiseCallback_failure err res He). fold e.
    exists s2. destruct (strict_eq _ _); reflexivity.
Qed.

Lemma authorize_failures_witness :
  let o := [("wallet_plugin_a", VObj [])] in
  let err := VObj [("code", num 4301)] in
  let perms := VArr [VObj [("parentCapability", str "wallet_plugin_a")]] in
  let s := run [OpConnect] (init 0 None) in
  (exists s',
     authorize (VObj o) [(err, mkResponse None None)] s
     = (s', Some (Rejected err)) /\
     handled s' = handled s ++
       [(permissionsSent (VObj o), PromiseCb (nextPromise s))]) /\
  (exists s2,
     authorize (VObj o) [success perms; (err, mkResponse None None)] s
     = (log (Log "error" "" [err]) s2, Some (Resolved (VArr [perms; VArr []])))).
Proof.
  intros o err perms s.
  pose proof (authorize_failures [OpConnect] 0 None o err (mkResponse None None) []
                ltac:(discriminate) eq_refl) as (A & _ & C).
  split; [exact A|].
  exact (C perms ["wallet_plugin_a"] eq_refl ltac:(discriminate)).
Defined.

Example authorize_type_error :
  snd (authorize (VObj [("wallet_plugin_a", VObj [])])
         [success (VObj [("parentCapability", str "wallet_plugin_a")])]
         (init 0 None))
  = Some (Rejected typeError).
Proof. reflexivity. Qed.

(** ** The history of the cached accounts *)

Lemma changes_app (a b c : list value) (l m : list event) :
  changes a l b -> changes b m c -> changes a (l ++ m) c.
Proof.
  revert a. induction l as [|e l IH]; intros a; cbn [changes app].
  - now intros ->.
  - intros (x & He & Hx & Hl) Hm. exists x. repeat split; auto.
Qed.

Lemma tracks_trans (s s1 s2 : State) :
  tracks s s1 -> tracks s1 s2 -> tracks s s2.
Proof.
  intros (l & El & Hl) (m & Em & Hm). exists (l ++ m). split.
  - now rewrite Em, El, app_assoc.
  - unfold events_named in *. rewrite filter_app. eapply changes_app; eauto.
Qed.

Lemma tracks_refl (s : State) : tracks s s.
Proof. exists []. split; [now rewrite app_nil_r | reflexivity]. Qed.

(** A step that keeps the accounts and emits no [accountsChanged]. *)
Lemma tracks_quiet (s s' : State) (l : list event) :
  accounts s' = accounts s -> emitted s' = emitted s ++ l ->
  events_named "accountsChanged" l = [] -> tracks s s'.
Proof.
  intros Ha He Hn. exists l. split; [assumption|]. rewrite Hn. cbn. congruence.
Qed.

Lemma same_core_tracks (s s' : State) : same_core s s' -> tracks s s'.
Proof.
  intros (A & _ & _ & E & _). apply (tracks_quiet s s' []); auto.
  now rewrite app_nil_r.
Qed.

Lemma handleAccounts_tracks (a : value) (s : State) :
  forallb is_prim (accounts s) = true ->
  tracks s (_handleAccountsChanged a s).
Proof.
  intro Hp.
  destruct (handleAccounts_spec a s) as (_ & Hev & Hacc & _). cbv zeta in *.
  eexists. split; [exact Hev|]. rewrite Hacc.
  destruct (dequal_list (accounts s) (effective_accounts a)) eqn:E.
  - reflexivity.
  - cbn. eexists. split; [reflexivity|]. split; [|reflexivity].
    intro H. rewrite H, dequal_list_prim_refl in E; [discriminate | exact Hp].
Qed.

Lemma onConfig_tracks (snap : Snapshot) (s : State) : tracks s (onConfig snap s).
Proof.
  apply (tracks_quiet _ _ []).
  - apply onConfig_same.
  - rewrite app_nil_r. apply onConfig_emitted.
  - reflexivity.
Qed.

Lemma handleDisconnect_tracks (n : string) (e : option string) (s : State) :
  tracks s (_handleDisconnect n e s).
Proof.
  assert (H : exists l, emitted (_handleDisconnect n e s) = emitted s ++ l /\
                        events_named "accountsChanged" l = []).
  { destruct (logStreamDisconnectWarning_spec n e s) as (Hc & _ & _).
    cbv zeta in Hc. unfold _handleDisconnect, isConnected_truthy. rewrite Hc.
    unfold logStreamDisconnectWarning.
    change (errorListeners (log ?x s)) with (errorListeners s).
    destruct (Nat.ltb 0 (errorListeners s)); destruct (isConnected s) as [[|]|];
      cbn [emitted set_isConnected emit set_emitted log set_console];
      rewrite <- ?app_assoc;
      eexists; (split; [first [reflexivity | symmetry; apply app_nil_r]
                       | reflexivity]). }
  destruct H as (l & Hl & Hn).
  apply (tracks_quiet _ _ l); auto. apply handleDisconnect_same.
Qed.

Lemma same_core_tracks_delivered
    (d : list (callback * (value * Response))) (s : State) :
  tracks s (set_delivered d s).
Proof. apply (tracks_quiet _ _ []); try reflexivity. cbn. now rewrite app_nil_r. Qed.

Lemma invoke_tracks (cb : callback) :
  forall (err : value) (res : Response) (s s' : State),
    prim_input (prop (res_result res)) = true ->
    forallb is_prim (accounts s) = true /\ selected_ok s ->
    invoke cb err res s = Some s' -> tracks s s'.
Proof.
  induction cb as [pid|cid| |inner IH]; intros err res s s' Hres Hs; cbn [invoke].
  - intro H. inversion H; subst. apply same_core_tracks_delivered.
  - intro H. inversion H; subst. apply same_core_tracks_delivered.
  - intro H. inversion H; subst. apply tracks_refl.
  - destruct (accountsCb err res s) as [[res1 s1]|] eqn:E; [|discriminate].
    destruct (accountsCb_ok _ _ _ _ _ Hres Hs E) as [H1 H2].
    intro H. apply (IH _ _ _ _ H1 H2) in H.
    eapply tracks_trans; [|exact H].
    unfold accountsCb in E. destruct (if truthy err then _ else _); [|discriminate].
    inversion E; subst. apply handleAccounts_tracks. apply Hs.
Qed.

Lemma onNotification_tracks (payload : value) (s : State) :
  forallb is_prim (accounts s) = true ->
  tracks s (onNotification payload s).
Proof.
  intro Hp. unfold onNotification.
  destruct (get payload "method") as [m|]; [|apply tracks_refl].
  destruct (strict_eq m _); [now apply handleAccounts_tracks|].
  destruct (strict_eq m _); [destruct (get _ "result")|];
    eapply tracks_quiet; try reflexivity; cbn; rewrite <- ?app_assoc; reflexivity.
Qed.

Lemma step_tracks (o : op) (s : State) :
  op_prim o = true ->
  forallb is_prim (accounts s) = true /\ selected_ok s ->
  tracks s (step o s).
Proof.
  intros Ho Hs. destruct o; cbn [step op_prim] in *.
  - apply onConfig_tracks.
  - apply onNotification_tracks, Hs.
  - apply handleAccounts_tracks, Hs.
  - apply handleDisconnect_tracks.
  - eapply tracks_quiet; reflexivity.
  - unfold onReply. destruct (nth_error _ _) as [[p cb]|]; [|apply tracks_refl].
    destruct (invoke cb err res s) eqn:E; [|apply tracks_refl].
    eapply invoke_tracks; eauto.
  - apply same_core_tracks, send_same.
  - destruct (sendAsync payload (UserCb cid) s) eqn:E.
    + unfold sendAsync in E. apply sendAsync_same in E. apply same_core_tracks.
      eapply same_core_trans; [apply warn_once_same | exact E].
    + apply same_core_tracks, warn_once_same.
  - apply same_core_tracks, enable_same.
Qed.

(** X16. For a provider receiving account lists of primitive values, the
    [accountsChanged] events are the history of its cached accounts: over
    any run from construction, each [accountsChanged] event carries a list
    that differs from the one carried by the event before it (from the
    empty list, for the first), and the last one carries the list that is
    cached at the end.  The cache never changes without such an event, and
    no such event is emitted without a change. *)
Theorem accountsChanged_is_history
    (ops : list op) (listeners : nat) (w : option value) :
  forallb op_prim ops = true ->
  let s := run ops (init listeners w) in
  changes [] (events_named "accountsChanged" (emitted s)) (accounts s).
Proof.
  intros Hops.
  assert (H : forall s0, forallb is_prim (accounts s0) = true /\ selected_ok s0 ->
                         tracks s0 (run ops s0)).
  { induction ops as [|o ops IH]; intros s0 Hs; [apply tracks_refl|].
    cbn [forallb] in Hops. apply andb_true_iff in Hops as [Ho Hops].
    cbn [run fold_left]. fold (run ops (step o s0)).
    apply (tracks_trans _ (step o s0)); [exact (step_tracks o s0 Ho Hs)|].
    apply (IH Hops). now apply step_ok. }
  destruct (H (init listeners w) (init_ok listeners w)) as (l & El & Hl).
  cbv zeta. rewrite El. exact Hl.
Qed.

Lemma accountsChanged_is_history_witness :
  let s := run [OpAccounts (VArr [str "0xA"]); OpAccounts (VArr [str "0xA"]);
                OpAccounts (str "oops"); OpAccounts (VArr [])] (init 0 None) in
  changes [] (events_named "accountsChanged" (emitted s)) (accounts s).
Proof.
  exact (accountsChanged_is_history
           [OpAccounts (VArr [str "0xA"]); OpAccounts (VArr [str "0xA"]);
            OpAccounts (str "oops"); OpAccounts (VArr [])] 0 None eq_refl).
Defined.

(** ** What the requests leave alone *)

Lemma untouched_refl (s : State) : untouched s s.
Proof. repeat split. Qed.

Lemma untouched_trans (s s1 s2 : State) :
  untouched s s1 -> untouched s1 s2 -> untouched s s2.
Proof.
  unfold untouched. intros H1 H2.
  repeat match goal with H : _ /\ _ |- _ => destruct H end.
  repeat split; congruence.
Qed.

Lemma warn_once_untouched (name : string) (s : State) :
  untouched s (warn_once name s).
Proof. unfold warn_once. destruct (warned name s); repeat split. Qed.

Lemma sendAsync_untouched (payload : value) (cb : callback) (s s' : State) :
  _sendAsync payload cb s = Some s' -> untouched s s'.
Proof.
  unfold _sendAsync. destruct (get payload "jsonrpc"); [|discriminate].
  set (p := if negb (truthy v) then _ else _).
  set (s0 := if negb (sentSiteMetadata s) then _ else _).
  assert (H0 : untouched s s0)
    by (subst s0; destruct (negb (sentSiteMetadata s)); repeat split).
  assert (Hh : forall c x, untouched s x -> untouched s (handle p c x)).
  { intros c x Hx. eapply untouched_trans; [exact Hx|]. repeat split. }
  destruct (_ && _); [|destruct (strict_eq _ _)]; intro E; inversion E; subst s';
    apply Hh; auto.
  eapply untouched_trans; [exact H0 | apply warn_once_untouched].
Qed.

Lemma request_untouched (payload : value) (s : State) :
  untouched s (snd (request payload s)).
Proof.
  unfold request.
  assert (Hs : untouched s (set_nextPromise (S (nextPromise s)) s))
    by (repeat split).
  destruct (_sendAsync payload _ _) eqn:E; cbn [snd]; [|exact Hs].
  eapply untouched_trans; [exact Hs|]. eapply sendAsync_untouched; eauto.
Qed.

Lemma sendSync_untouched (payload : value) (s : State) :
  untouched s (snd (_sendSync payload s)).
Proof.
  unfold _sendSync. pose proof (warn_once_untouched "sendSync" s) as W.
  set (s1 := warn_once "sendSync" s) in *.
  destruct (strict_eq _ _); [exact W|].
  destruct (strict_eq _ _); [exact W|].
  destruct (strict_eq _ _).
  - unfold sendAsync. pose proof (warn_once_untouched "sendAsync" s1) as W1.
    destruct (_sendAsync payload NoopCb (warn_once "sendAsync" s1)) eqn:E; cbn [snd].
    + eapply untouched_trans; [exact W|]. eapply untouched_trans; [exact W1|].
      eapply sendAsync_untouched; eauto.
    + eapply untouched_trans; [exact W | exact W1].
  - destruct (strict_eq _ _); exact W.
Qed.

Lemma send_untouched (m params : value) (s : State) :
  untouched s (snd (send m params s)).
Proof.
  assert (Hp : forall payload, untouched s (snd (send_payload payload s))).
  { intro payload. unfold send_payload.
    destruct (malformed payload) as [[|]|]; try apply untouched_refl.
    destruct (strict_eq _ _).
    - rewrite requestAccounts_nil. apply request_untouched.
    - pose proof (request_untouched payload s) as R.
      destruct (request payload s) as [[e|pid] s1]; exact R. }
  unfold send.
  destruct (negb _); [apply Hp|].
  destruct (typeof_string m); [apply Hp|].
  destruct (get m "method"); [|apply untouched_refl].
  destruct (includes _ _); [|apply Hp].
  pose proof (sendSync_untouched m s) as R.
  destruct (_sendSync m s) as [[e|r] s1]; exact R.
Qed.

(** The three operations that only issue requests. *)
Lemma request_step_untouched (o : op) (s : State) :
  vocabulary o = [] -> is_config o = false -> untouched s (step o s).
Proof.
  destruct o; cbn [vocabulary is_config step]; try discriminate; intros _ _.
  - apply send_untouched.
  - destruct (sendAsync payload (UserCb cid) s) eqn:E.
    + unfold sendAsync in E.
      eapply untouched_trans; [apply warn_once_untouched|].
      eapply sendAsync_untouched; eauto.
    + apply warn_once_untouched.
  - unfold enable. rewrite requestAccounts_nil. cbn [fst].
    eapply untouched_trans; [apply warn_once_untouched | apply request_untouched].
Qed.

(** ** Requests change nothing the page can see *)



(** ** The events of each operation *)

Lemma emits_only_refl (names : list string) (s : State) : emits_only names s s.
Proof. exists []. split; [now rewrite app_nil_r | constructor]. Qed.

Lemma emits_only_trans (names : list string) (s s1 s2 : State) :
  emits_only names s s1 -> emits_only names s1 s2 -> emits_only names s s2.
Proof.
  intros (l & El & Hl) (m & Em & Hm). exists (l ++ m). split.
  - now rewrite Em, El, app_assoc.
  - apply Forall_app. now split.
Qed.

Lemma emits_nothing (names : list string) (s s' : State) :
  emitted s' = emitted s -> emits_only names s s'.
Proof. intro H. exists []. split; [now rewrite app_nil_r | constructor]. Qed.

Lemma handleAccounts_emits (a : value) (s : State) :
  emits_only ["accountsChanged"] s (_handleAccountsChanged a s).
Proof.
  destruct (handleAccounts_spec a s) as (_ & Hev & _). cbv zeta in Hev.
  eexists. split; [exact Hev|].
  destruct (dequal_list _ _); repeat constructor.
Qed.

Lemma invoke_emits (cb : callback) :
  forall (err : value) (res : Response) (s s' : State),
    invoke cb err res s = Some s' -> emits_only ["accountsChanged"] s s'.
Proof.
  induction cb as [pid|cid| |inner IH]; intros err res s s'; cbn [invoke].
  - intro H. inversion H; subst. now apply emits_nothing.
  - intro H. inversion H; subst. now apply emits_nothing.
  - intro H. inversion H; subst. apply emits_only_refl.
  - destruct (accountsCb err res s) as [[res1 s1]|] eqn:E; [|discriminate].
    intro H. apply IH in H. eapply emits_only_trans; [|exact H].
    unfold accountsCb in E. destruct (if truthy err then _ else _); [|discriminate].
    inversion E; subst. apply handleAccounts_emits.
Qed.

Lemma emits_only_weaken (names names' : list string) (s s' : State) :
  incl names names' -> emits_only names s s' -> emits_only names' s s'.
Proof.
  intros Hi (l & El & Hl). exists l. split; [assumption|].
  eapply Forall_impl; [|exact Hl]. intros e He. now apply Hi.
Qed.

Ltac named_events :=
  repeat (apply Forall_cons; [cbn; auto 10|]); apply Forall_nil.

(** The events of one operation, by their names. *)
Lemma step_emits_only (o : op) (s : State) :
  emits_only (vocabulary o) s (step o s).
Proof.
  destruct o; cbn [vocabulary step].
  - apply emits_nothing, onConfig_emitted.
  - unfold onNotification.
    destruct (get payload "method") as [m|]; [|apply emits_only_refl].
    destruct (strict_eq m _).
    + eapply emits_only_weaken; [|apply handleAccounts_emits].
      intros x [<- | []]. now left.
    + unfold emits_only.
      destruct (strict_eq m _); [destruct (get _ "result")|];
        cbn [emitted emit set_emitted];
        rewrite <- ?app_assoc; eexists; (split; [reflexivity|]);
        named_events.
  - apply handleAccounts_emits.
  - destruct (logStreamDisconnectWarning_spec streamName err s) as (Hc & _ & _).
    cbv zeta in Hc. unfold _handleDisconnect, isConnected_truthy. rewrite Hc.
    unfold logStreamDisconnectWarning, emits_only.
    change (errorListeners (log ?x s)) with (errorListeners s).
    destruct (Nat.ltb 0 (errorListeners s)); destruct (isConnected s) as [[|]|];
      cbn [emitted set_isConnected emit set_emitted log set_console];
      rewrite <- ?app_assoc;
      eexists; (split; [first [reflexivity | symmetry; apply app_nil_r]|]);
      named_events.
  - exists [("connect", [])]. split; [reflexivity|]. named_events.
  - unfold onReply. destruct (nth_error _ _) as [[p cb]|]; [|apply emits_only_refl].
    destruct (invoke cb err res s) eqn:E; [|apply emits_only_refl].
    eapply invoke_emits; eauto.
  - apply emits_nothing.
    apply (request_step_untouched (OpSend methodOrPayload params) s eq_refl eq_refl).
  - apply emits_nothing.
    apply (request_step_untouched (OpSendAsync payload cid) s eq_refl eq_refl).
  - apply emits_nothing. apply (request_step_untouched OpEnable s eq_refl eq_refl).
Qed.

(** X17. Each operation makes the provider emit events of its own kind
    only: a pushed notification [accountsChanged], [data] and
    [notification]; the reconciler and an answer of the engine
    [accountsChanged]; a disconnect signal [error] and [close]; the connect
    announcement [connect]; and a config snapshot, whose handler emits on
    the store, [send], [sendAsync] and [enable] none at all.  So every
    event of a run bears a name that one of its operations can emit. *)
Theorem events_by_operation (ops : list op) (s : State) :
  (forall o, exists l,
     emitted (step o s) = emitted s ++ l /\
     Forall (fun e => In (fst e) (vocabulary o)) l) /\
  exists l,
    emitted (run ops s) = emitted s ++ l /\
    Forall (fun e => exists o, In o ops /\ In (fst e) (vocabulary o)) l.
Proof.
  split; [intro o; exact (step_emits_only o s)|].
  revert s. induction ops as [|o ops IH]; intro s.
  - exists []. split; [now rewrite app_nil_r | constructor].
  - destruct (step_emits_only o s) as (l1 & E1 & H1).
    destruct (IH (step o s)) as (l2 & E2 & H2).
    exists (l1 ++ l2). cbn [run fold_left]. fold (run ops (step o s)). split.
    + now rewrite E2, E1, app_assoc.
    + apply Forall_app. split.
      * eapply Forall_impl; [|exact H1]. intros e He. exists o. split; [now left | exact He].
      * eapply Forall_impl; [|exact H2]. intros e (o' & Ho & He).
        exists o'. split; [now right | exact He].
Qed.


(** ** The history of the chain and of the network *)




Lemma invoke_config (cb : callback) :
  forall (err : value) (res : Response) (s s' : State),
    invoke cb err res s = Some s' ->
    chainId s' = chainId s /\ networkVersion s' = networkVersion s /\
    isUnlocked s' = isUnlocked s.
Proof.
  induction cb as [pid|cid| |inner IH]; intros err res s s'; cbn [invoke].
  - intro H. inversion H; subst. repeat split.
  - intro H. inversion H; subst. repeat split.
  - intro H. inversion H; subst. repeat split.
  - destruct (accountsCb err res s) as [[res1 s1]|] eqn:E; [|discriminate].
    intro H. apply IH in H. destruct H as (A & B & C).
    unfold accountsCb in E. destruct (if truthy err then _ else _); [|discriminate].
    inversion E; subst. rewrite A, B, C.
    unfold _handleAccountsChanged. cbn. split_matches; repeat split.
Qed.

(** No operation other than a config snapshot touches the cached chain,
    network and lock status. *)
Lemma step_config (o : op) (s : State) :
  is_config o = false ->
  chainId (step o s) = chainId s /\ networkVersion (step o s) = networkVersion s /\
  isUnlocked (step o s) = isUnlocked s.
Proof.
  destruct o; cbn [is_config step]; try discriminate; intros _.
  - unfold onNotification, _handleAccountsChanged. cbn. split_matches; repeat split.
  - unfold _handleAccountsChanged. cbn. split_matches; repeat split.
  - unfold _handleDisconnect, logStreamDisconnectWarning. cbn.
    split_matches; repeat split.
  - repeat split.
  - unfold onReply. destruct (nth_error _ _) as [[p cb]|]; [|repeat split].
    destruct (invoke cb err res s) eqn:E; [|repeat split].
    eapply invoke_config; eauto.
  - destruct (request_step_untouched (OpSend methodOrPayload params) s eq_refl eq_refl)
      as (_ & _ & A & _ & B & C & _). repeat split; assumption.
  - destruct (request_step_untouched (OpSendAsync payload cid) s eq_refl eq_refl)
      as (_ & _ & A & _ & B & C & _). repeat split; assumption.
  - destruct (request_step_untouched OpEnable s eq_refl eq_refl)
      as (_ & _ & A & _ & B & C & _). repeat split; assumption.
Qed.






(** Snapshots that change the chain, between requests: the provider emits
    none of the chain and network events and its two fields are as
    constructed. *)
Example config_history_run :
  let s := run [OpConfig (mkSnapshot None (Some (PStr "0x1")) (Some (PStr "1")));
                OpConfig (mkSnapshot None (Some (PStr "0x1")) None);
                OpSend (str "eth_chainId") undefined;
                OpConfig (mkSnapshot (Some (PBool true)) (Some (PStr "0x3")) (Some (PStr "1")))]
             (init 0 None) in
  events_named "chainChanged" (emitted s) = [] /\
  events_named "networkChanged" (emitted s) = [] /\
  chainId s = PUndef /\ networkVersion s = PUndef.
Proof. repeat split; reflexivity. Qed.

(** ** The config fields after a run *)

Lemma run_last_pushed (f : Snapshot -> option prim) (g : State -> prim) :
  (forall snap s, g (onConfig snap s) = field_after (f snap) (g s)) ->
  (forall o s, is_config o = false -> g (step o s) = g s) ->
  forall ops s,
    g (run ops s) = match last_pushed f ops with Some v => v | None => g s end.
Proof.
  intros Hc Ho. induction ops as [|o ops IH]; intro s; [reflexivity|].
  cbn [run fold_left last_pushed]. fold (run ops (step o s)). rewrite IH.
  destruct (last_pushed f ops); [reflexivity|].
  destruct (is_config o) eqn:E.
  - destruct o; try discriminate. cbn [step]. rewrite Hc.
    unfold field_after. destruct (f snap); reflexivity.
  - rewrite (Ho o s E). destruct o; try reflexivity. discriminate.
Qed.

(** No operation writes the provider's chain id or network version. *)
Lemma step_chain (o : op) (s : State) :
  chainId (step o s) = chainId s /\ networkVersion (step o s) = networkVersion s.
Proof.
  destruct (is_config o) eqn:E.
  - destruct o; try discriminate. cbn [step].
    destruct (onConfig_fields snap s) as (Hc & Hn & _). now split.
  - destruct (step_config o s E) as (Hc & Hn & _). now split.
Qed.

Lemma run_chain (ops : list op) (s : State) :
  chainId (run ops s) = chainId s /\ networkVersion (run ops s) = networkVersion s.
Proof.
  revert s. induction ops as [|o ops IH]; intro s; [now split|].
  cbn [run fold_left]. fold (run ops (step o s)).
  destruct (IH (step o s)) as (Hc & Hn). destruct (step_chain o s) as (Hc' & Hn').
  split; congruence.
Qed.

(** The events of a run bear names of the operations' vocabularies. *)
Lemma run_emits (ops : list op) (s : State) :
  exists l, emitted (run ops s) = emitted s ++ l /\
            Forall (fun e => exists o, In o ops /\ In (fst e) (vocabulary o)) l.
Proof.
  revert s. induction ops as [|o ops IH]; intro s.
  - exists []. split; [now rewrite app_nil_r | constructor].
  - cbn [run fold_left]. fold (run ops (step o s)).
    destruct (step_emits_only o s) as (l & El & Hl).
    destruct (IH (step o s)) as (m & Em & Hm).
    exists (l ++ m). split; [now rewrite Em, El, app_assoc|].
    apply Forall_app. split.
    + eapply Forall_impl; [|exact Hl]. intros e He. exists o. split; [now left | exact He].
    + eapply Forall_impl; [|exact Hm]. intros e (o' & Ho' & He).
      exists o'. split; [now right | exact He].
Qed.

Lemma config_name_absent (name : string) (o : op) :
  In name ["chainChanged"; "chainIdChanged"; "networkChanged"] ->
  ~ In name (vocabulary o).
Proof.
  intros Hn Hin. destruct o; cbn in Hn, Hin;
    repeat match goal with H : _ \/ _ |- _ => destruct H end;
    try contradiction; subst; discriminate.
Qed.

Lemma events_named_none (name : string) (l : list event) :
  Forall (fun e => fst e <> name) l -> events_named name l = [].
Proof.
  induction 1 as [|e l He _ IH]; [reflexivity|].
  unfold events_named in *. cbn [filter]. unfold named at 1.
  destruct (String.eqb name (fst e)) eqn:E; [|exact IH].
  apply String.eqb_eq in E. congruence.
Qed.

(** X19. After any run from construction the provider's [chainId] and
    [networkVersion] are still [undefined], and the provider has emitted
    no [chainChanged], [chainIdChanged] or [networkChanged]: no operation
    writes the two fields or emits these events on the provider, a config
    snapshot included, whose handler reads and writes the store.  The lock
    status is kept in the module's state and does follow the snapshots:
    [_metamask.isUnlocked()] answers the [isUnlocked] of the last snapshot
    that carried one, and [false] when none did.  Requests, answers,
    notifications and lifecycle signals never change it. *)
Theorem config_fields_after_run
    (ops : list op) (listeners : nat) (w : option value) :
  let s := run ops (init listeners w) in
  chainId s = PUndef /\
  networkVersion s = PUndef /\
  events_named "chainChanged" (emitted s) = [] /\
  events_named "chainIdChanged" (emitted s) = [] /\
  events_named "networkChanged" (emitted s) = [] /\
  fst (_metamask_call IsUnlocked s)
  = VPrim (match last_pushed snap_isUnlocked ops with
           | Some v => v
           | None => PBool false
           end).
Proof.
  cbv zeta.
  destruct (run_chain ops (init listeners w)) as (Hc & Hn).
  destruct (run_emits ops (init listeners w)) as (l & El & Hl).
  assert (Hnone : forall name,
            In name ["chainChanged"; "chainIdChanged"; "networkChanged"] ->
            events_named name (emitted (run ops (init listeners w))) = []).
  { intros name Hname. rewrite El. cbn [init emitted app].
    apply events_named_none. eapply Forall_impl; [|exact Hl].
    intros e (o & _ & Hv) E. subst name.
    exact (config_name_absent _ o Hname Hv). }
  split; [exact Hc|]. split; [exact Hn|].
  split; [apply Hnone; cbn; auto|].
  split; [apply Hnone; cbn; auto|].
  split; [apply Hnone; cbn; auto|].
  unfold _metamask_call. cbn [fst].
  destruct (warn_once_untouched "experimentalMethods"
              (run ops (init listeners w))) as (_ & _ & U & _).
  rewrite U. f_equal.
  apply (run_last_pushed snap_isUnlocked isUnlocked).
  - intros snap s. apply onConfig_fields.
  - intros o s E. apply (step_config o s E).
Qed.

(** A run in which the wallet is unlocked and the chain changes. *)
Example config_fields_run :
  let s := run [OpConfig (mkSnapshot (Some (PBool true)) (Some (PStr "0x1")) (Some (PStr "1")));
                OpSend (str "eth_chainId") undefined;
                OpConfig (mkSnapshot None (Some (PStr "0x3")) None)]
             (init 0 None) in
  chainId s = PUndef /\ networkVersion s = PUndef /\
  fst (_metamask_call IsUnlocked s) = VPrim (PBool true) /\
  fst (send (VObj [("method", str "net_version")]) undefined s)
  = Returned (VObj [("id", undefined); ("jsonrpc", undefined); ("result", null)]).
Proof. repeat split; reflexivity. Qed.

(** ** The default account of [window.web3] *)

Lemma handleAccounts_mirrored (a : value) (s : State) :
  mirrored (_handleAccountsChanged a s).
Proof.
  unfold mirrored. rewrite handleAccounts_web3. destruct (web3 s); auto.
Qed.

Lemma mirrored_frame (s s' : State) :
  web3 s' = web3 s -> selectedAddress s' = selectedAddress s ->
  mirrored s -> mirrored s'.
Proof. unfold mirrored. intros -> ->. auto. Qed.

Lemma invoke_mirrored (cb : callback) :
  forall (err : value) (res : Response) (s s' : State),
    invoke cb err res s = Some s' -> mirrored s -> mirrored s'.
Proof.
  induction cb as [pid|cid| |inner IH]; intros err res s s'; cbn [invoke].
  - intro H. inversion H; subst. now apply mirrored_frame.
  - intro H. inversion H; subst. now apply mirrored_frame.
  - intro H. inversion H; subst. auto.
  - destruct (accountsCb err res s) as [[res1 s1]|] eqn:E; [|discriminate].
    intros H _. apply IH in H; [exact H|].
    unfold accountsCb in E. destruct (if truthy err then _ else _); [|discriminate].
    inversion E; subst. apply handleAccounts_mirrored.
Qed.

Lemma step_mirrored (o : op) (s : State) : mirrored s -> mirrored (step o s).
Proof.
  intro M. destruct o; cbn [step].
  - revert M. apply mirrored_frame;
      unfold onConfig, syncUnlocked; cbn;
      split_matches; reflexivity.
  - unfold onNotification.
    destruct (get payload "method") as [m|]; [|exact M].
    destruct (strict_eq m _); [apply handleAccounts_mirrored|].
    revert M. apply mirrored_frame; cbn; split_matches; reflexivity.
  - apply handleAccounts_mirrored.
  - revert M. apply mirrored_frame;
      unfold _handleDisconnect, logStreamDisconnectWarning; cbn;
      split_matches; reflexivity.
  - revert M. now apply mirrored_frame.
  - unfold onReply. destruct (nth_error _ _) as [[p cb]|]; [|exact M].
    destruct (invoke cb err res s) eqn:E; [|exact M].
    eapply invoke_mirrored; eauto.
  - destruct (request_step_untouched (OpSend methodOrPayload params) s eq_refl eq_refl)
      as (_ & _ & _ & A & _ & _ & _ & B & _). revert M. now apply mirrored_frame.
  - destruct (request_step_untouched (OpSendAsync payload cid) s eq_refl eq_refl)
      as (_ & _ & _ & A & _ & _ & _ & B & _). revert M. now apply mirrored_frame.
  - destruct (request_step_untouched OpEnable s eq_refl eq_refl)
      as (_ & _ & _ & A & _ & _ & _ & B & _). revert M. now apply mirrored_frame.
Qed.

(** X20. Once the reconciler has run, [window.web3.eth.defaultAccount],
    when the page has a [window.web3], equals [selectedAddress], and it
    stays equal whatever happens next. *)
Theorem web3_follows_selected (a : value) (s : State) (ops : list op) :
  let s' := run ops (_handleAccountsChanged a s) in
  web3 s' = None \/ web3 s' = Some (selectedAddress s').
Proof.
  cbv zeta. pose proof (handleAccounts_mirrored a s) as M.
  revert M. generalize (_handleAccountsChanged a s).
  induction ops as [|o ops IH]; intros s0 M; [exact M|].
  cbn [run fold_left]. apply IH. now apply step_mirrored.
Qed.

Example web3_follows_selected_run :
  let s := run [OpAccounts (VArr [str "0xA"]); OpEnable;
                OpReply 0 null (mkResponse (Some (VArr [str "0xB"])) None)]
             (init 0 (Some (str "0xOLD"))) in
  web3 s = Some (str "0xB") /\ selectedAddress s = str "0xB".
Proof. split; reflexivity. Qed.

(** ** The callback of [sendAsync] *)

(** X21. For an object payload whose method is not [eth_accounts], the
    callback given to the deprecated [sendAsync] is the one handed to the
    engine: when the engine answers, the callback is invoked once with the
    error and the response exactly as the engine passes them, and nothing
    else in the provider changes. *)
Theorem sendAsync_passes_answer
    (o : list (string * value)) (cid : nat) (err : value) (res : Response)
    (s : State) :
  strict_eq (method_of (VObj o)) (str "eth_accounts") = false ->
  exists s1,
    sendAsync (VObj o) (UserCb cid) s = Some s1 /\
    delivered s1 = delivered s /\
    onReply (List.length (handled s)) err res s1
    = set_delivered (delivered s ++ [(UserCb cid, (err, res))]) s1.
Proof.
  intro Hm. unfold sendAsync.
  destruct (sendAsync_spec o (UserCb cid) (warn_once "sendAsync" s))
    as (s1 & E & Hh & Hd & _).
  rewrite Hm, warn_once_handled in Hh.
  destruct (warn_once_untouched "sendAsync" s) as (_ & _ & _ & _ & _ & _ & _ & _ & _ & D).
  rewrite D in Hd.
  exists s1. split; [exact E|]. split; [exact Hd|].
  unfold onReply. rewrite Hh, nth_error_snoc. cbn [invoke]. now rewrite Hd.
Qed.

Lemma sendAsync_passes_answer_witness :
  let o := [("id", num 7); ("method", str "eth_blockNumber")] in
  let res := mkResponse (Some (str "0x10")) None in
  exists s1,
    sendAsync (VObj o) (UserCb 3) (init 0 None) = Some s1 /\
    delivered s1 = delivered (init 0 None) /\
    onReply (List.length (handled (init 0 None))) null res s1
    = set_delivered (delivered (init 0 None) ++ [(UserCb 3, (null, res))]) s1.
Proof.
  intros o res.
  exact (sendAsync_passes_answer o 3 null res (init 0 None) eq_refl).
Defined.
